(** * A three-tier memory pool: SizeClass, ThreadCache, CentralCache, PageCache

    Shallow embedding of [memoryPool/inc/Conmmon.h], [memoryPool/inc/PageCache.h],
    [inc/ThreadCache.h] and [src/CentralCache.cpp].

    Conventions of the embedding:
    - [size_t] values are integers in [0, 2^64); every arithmetic operation on
      them is followed by an explicit reduction modulo [2^64] ([wrap]);
    - a pointer is the integer address it holds, [0] being [nullptr];
    - block memory is a finite map from the address of a pointer-sized word to
      the word stored there (the intrusive "next" link of a free block);
    - [Span] records live in a store indexed by their [Span*];
    - an execution that dereferences [nullptr], reads a word that was never
      written, uses a deleted [Span], indexes an array out of bounds or divides
      by zero has no result ([None]);
    - the embedding is sequential: on an uncontended lock, acquiring and
      releasing the spin lock or the mutex has no effect on the data. *)

From Stdlib Require Import ZArith Lia List Bool.
From stdpp Require Import base option list gmap fin_maps.

Local Open Scope Z_scope.

(** ** Configuration constants (Conmmon.h) *)

Definition ALIGNMENT : Z := 8.
Definition MAX_BYTES : Z := 256 * 1024.
Definition FREE_LIST_SIZE : Z := MAX_BYTES / ALIGNMENT.
Definition SPAN_PAGES : Z := 8.
Definition PAGE_SIZE : Z := 4096.

(** ** [size_t] arithmetic *)

Definition SIZE_T_BITS : Z := 64.
Definition SIZE_T_MOD : Z := 2 ^ SIZE_T_BITS.

(** reduction of an integer to the value a [size_t] holds *)
Definition wrap (x : Z) : Z := x mod SIZE_T_MOD.

(** [sizeof(1)]: the operand is an [int] literal *)
Definition SIZEOF_INT : Z := 4.

(** ** SizeClass (Conmmon.h) *)

Module SizeClass.

(** [(bytes + ALIGNMENT - 1) & ~(ALIGNMENT - 1)] *)
Definition roundUp (bytes : Z) : Z :=
  Z.land (wrap (bytes + ALIGNMENT - 1)) (wrap (Z.lnot (ALIGNMENT - 1))).

(** [bytes = max(bytes, ALIGNMENT); (bytes + ALIGNMENT - 1) / ALIGNMENT - 1] *)
Definition getIndex (bytes : Z) : Z :=
  let bytes := Z.max bytes ALIGNMENT in
  wrap (wrap (bytes + ALIGNMENT - 1) / ALIGNMENT - 1).

End SizeClass.

(** ** ThreadCache::getBatchNum (ThreadCache.h)

    The function is pure; [None] is the division by zero of
    [MAX_BATCH_SIZE / size] at [size = 0]. *)

Definition MAX_BATCH_SIZE : Z := 4 * 1024.

Definition getBatchNum (size : Z) : option Z :=
  let baseNum :=
    if size <=? 32 then 64
    else if size <=? 64 then 32
    else if size <=? 128 then 16
    else if size <=? 256 then 8
    else if size <=? 512 then 4
    else if size <=? 1024 then 2
    else 1 in
  if size =? 0 then None
  else
    let maxNum := Z.max 1 (MAX_BATCH_SIZE / size) in
    Some (Z.max SIZEOF_INT (Z.min maxNum baseNum)).

(** The batch table of the design: the baseline count per block size and the
    batch count [max(1, min(baseline, 4096/s))] derived from it. *)
Definition batch_baseline (s : Z) : Z :=
  if s <=? 32 then 64
  else if s <=? 64 then 32
  else if s <=? 128 then 16
  else if s <=? 256 then 8
  else if s <=? 512 then 4
  else if s <=? 1024 then 2
  else 1.

Definition batch_table (s : Z) : Z := Z.max 1 (Z.min (batch_baseline s) (4096 / s)).

(** [m] is the smallest multiple of [a] that is at least [lo] *)
Definition smallest_multiple_ge (a lo m : Z) : Prop :=
  (a | m) ∧ lo ≤ m ∧ ∀ m', (a | m') → lo ≤ m' → m ≤ m'.

(** ** The state of the pool *)

(** [struct Span] of PageCache.h; [next] is a [Span*] *)
Record Span := mkSpan {
  PageAddr : Z;
  sizePages : Z;
  next : Z
}.

(** The data the three tiers own, together with the block memory they link
    through.  An array of [FREE_LIST_SIZE] slots is a finite map in which an
    absent index holds the zero it was initialised with. *)
Record World := mkWorld {
  mem : gmap Z Z;               (* word address ↦ stored word *)
  _freeList : gmap Z Z;         (* ThreadCache: class ↦ head block *)
  _freeListSize : gmap Z Z;     (* ThreadCache: class ↦ length counter *)
  centralFreeList_ : gmap Z Z;  (* CentralCache: class ↦ head block *)
  spans : gmap Z Span;          (* the Span objects, by their Span* *)
  FreeSpans_ : gmap Z Z;        (* std::map<size_t, Span*> *)
  SpanMap_ : gmap Z Z           (* std::map<void*, Span*> *)
}.

Definition empty_world : World := mkWorld ∅ ∅ ∅ ∅ ∅ ∅ ∅.

Definition with_mem (f : gmap Z Z → gmap Z Z) (w : World) : World :=
  mkWorld (f (mem w)) (_freeList w) (_freeListSize w) (centralFreeList_ w)
          (spans w) (FreeSpans_ w) (SpanMap_ w).
Definition with_freeList (f : gmap Z Z → gmap Z Z) (w : World) : World :=
  mkWorld (mem w) (f (_freeList w)) (_freeListSize w) (centralFreeList_ w)
          (spans w) (FreeSpans_ w) (SpanMap_ w).
Definition with_freeListSize (f : gmap Z Z → gmap Z Z) (w : World) : World :=
  mkWorld (mem w) (_freeList w) (f (_freeListSize w)) (centralFreeList_ w)
          (spans w) (FreeSpans_ w) (SpanMap_ w).
Definition with_central (f : gmap Z Z → gmap Z Z) (w : World) : World :=
  mkWorld (mem w) (_freeList w) (_freeListSize w) (f (centralFreeList_ w))
          (spans w) (FreeSpans_ w) (SpanMap_ w).
Definition with_spans (f : gmap Z Span → gmap Z Span) (w : World) : World :=
  mkWorld (mem w) (_freeList w) (_freeListSize w) (centralFreeList_ w)
          (f (spans w)) (FreeSpans_ w) (SpanMap_ w).
Definition with_FreeSpans (f : gmap Z Z → gmap Z Z) (w : World) : World :=
  mkWorld (mem w) (_freeList w) (_freeListSize w) (centralFreeList_ w)
          (spans w) (f (FreeSpans_ w)) (SpanMap_ w).
Definition with_SpanMap (f : gmap Z Z → gmap Z Z) (w : World) : World :=
  mkWorld (mem w) (_freeList w) (_freeListSize w) (centralFreeList_ w)
          (spans w) (FreeSpans_ w) (f (SpanMap_ w)).

(** ** A state monad with failure *)

Definition M (S A : Type) : Type := S → option (A * S).

Global Instance M_ret {S} : MRet (M S) := λ A (a : A) s, Some (a, s).
Global Instance M_bind {S} : MBind (M S) :=
  λ A B (f : A → M S B) (c : M S A) s,
    match c s with
    | Some (a, s') => f a s'
    | None => None
    end.

Definition get {S} : M S S := λ s, Some (s, s).
Definition modify {S} (f : S → S) : M S () := λ s, Some ((), f s).
Definition fail {S A} : M S A := λ _, None.
Definition lift_option {S A} (o : option A) : M S A :=
  λ s, match o with Some a => Some (a, s) | None => None end.

(** ** Memory and array primitives *)

(** [*reinterpret_cast<void **>(p)] read *)
Definition load (p : Z) : M World Z :=
  λ w, if p =? 0 then None
       else match mem w !! p with Some v => Some (v, w) | None => None end.

(** [*reinterpret_cast<void **>(p) = v] *)
Definition store (p v : Z) : M World () :=
  λ w, if p =? 0 then None else Some ((), with_mem <[p := v]> w).

(** [a[i]] on a zero-initialised array of [FREE_LIST_SIZE] slots *)
Definition slot (a : gmap Z Z) (i : Z) : option Z :=
  if bool_decide (0 ≤ i < FREE_LIST_SIZE) then Some (default 0 (a !! i)) else None.

Definition freeList_at (i : Z) : M World Z := λ w, (λ v, (v, w)) <$> slot (_freeList w) i.
Definition freeListSize_at (i : Z) : M World Z := λ w, (λ v, (v, w)) <$> slot (_freeListSize w) i.
Definition central_at (i : Z) : M World Z := λ w, (λ v, (v, w)) <$> slot (centralFreeList_ w) i.

Definition set_freeList (i v : Z) : M World () :=
  if bool_decide (0 ≤ i < FREE_LIST_SIZE) then modify (with_freeList <[i := v]>) else fail.
Definition set_freeListSize (i v : Z) : M World () :=
  if bool_decide (0 ≤ i < FREE_LIST_SIZE) then modify (with_freeListSize <[i := v]>) else fail.
Definition set_central (i v : Z) : M World () :=
  if bool_decide (0 ≤ i < FREE_LIST_SIZE) then modify (with_central <[i := v]>) else fail.

(** [memset(ptr, 0, size)] on the words of the range *)
Definition memset0 (ptr size : Z) (m : gmap Z Z) : gmap Z Z :=
  foldr (λ i acc, <[ptr + 8 * Z.of_nat i := 0]> acc) m (seq 0 (Z.to_nat (size / 8))).

(** ** PageCache (PageCache.h) *)

(** [sp->field] *)
Definition deref_span (sp : Z) : M World Span :=
  λ w, if sp =? 0 then None
       else match spans w !! sp with Some s => Some (s, w) | None => None end.

(** assignment to the fields of [*sp] *)
Definition store_span (sp : Z) (s : Span) : M World () :=
  λ w, if sp =? 0 then None else Some ((), with_spans <[sp := s]> w).

(** [new Span]: an address that holds no Span yet *)
Definition new_Span : M World Z :=
  λ w, Some (fresh ({[0]} ∪ dom (spans w)), w).

(** [delete sp] *)
Definition delete_Span (sp : Z) : M World () := modify (with_spans (delete sp)).

(** [FreeSpans_.lower_bound(k)]: the entry with the least key [>= k];
    [lower_bound_pick] keeps the better of an entry and the best of the rest. *)
Definition lower_bound_pick (k : Z) (kv : Z * Z) (best : option (Z * Z)) : option (Z * Z) :=
  if bool_decide (k ≤ kv.1) then
    match best with
    | Some b => if bool_decide (kv.1 < b.1) then Some kv else Some b
    | None => Some kv
    end
  else best.

Definition lower_bound (k : Z) (m : gmap Z Z) : option (Z * Z) :=
  foldr (lower_bound_pick k) None (map_to_list m).

(** [FreeSpans_[k]] read through [operator[]]: an absent key is inserted with
    a null head *)
Definition FreeSpans_at (k : Z) : M World Z :=
  λ w, match FreeSpans_ w !! k with
       | Some v => Some (v, w)
       | None => Some (0, with_FreeSpans <[k := 0]> w)
       end.

Definition set_FreeSpans (k v : Z) : M World () := modify (with_FreeSpans <[k := v]>).

(** The search of [deallocateSpan] for [nextSpan] behind the head of its list:
    [while (prev->next) { if (prev->next == nextSpan) {...; break;} prev = prev->next; }].
    A walk longer than the number of Span objects has entered a cycle that
    does not contain [nextSpan] and never ends. *)
Fixpoint unlink_walk (fuel : nat) (prev nextSpan : Z) : M World bool :=
  match fuel with
  | O => fail
  | S fuel' =>
      p ← deref_span prev;
      if next p =? 0 then mret false
      else if next p =? nextSpan then
        ns ← deref_span nextSpan;
        store_span prev (mkSpan (PageAddr p) (sizePages p) (next ns));;
        mret true
      else unlink_walk fuel' (next p) nextSpan
  end.

Section OS.

(** The answer of the operating system to
    [mmap(nullptr, size, PROT_READ | PROT_WRITE, MAP_PRIVATE | MAP_ANONYMOUS, -1, 0)];
    [None] is [MAP_FAILED]. *)
Variable mmap : Z → option Z.

Definition systemaAlloc (numPages : Z) : M World Z :=
  let size := wrap (numPages * PAGE_SIZE) in
  match mmap size with
  | None => mret 0
  | Some ptr => modify (with_mem (memset0 ptr size));; mret ptr
  end.

Definition allocateSpan (numPages : Z) : M World Z :=
  w ← get;
  match lower_bound numPages (FreeSpans_ w) with
  | Some (key, span) =>
      s ← deref_span span;
      (if next s =? 0 then modify (with_FreeSpans (delete key))
       else set_FreeSpans key (next s));;
      (if numPages <? sizePages s then
         newSpan ← new_Span;
         let addr := PageAddr s + wrap (numPages * PAGE_SIZE) in
         let pages := wrap (sizePages s - numPages) in
         list ← FreeSpans_at pages;
         store_span newSpan (mkSpan addr pages list);;
         set_FreeSpans pages newSpan;;
         store_span span (mkSpan (PageAddr s) numPages (next s))
       else mret ());;
      modify (with_SpanMap <[PageAddr s := span]>);;
      mret (PageAddr s)
  | None =>
      memory ← systemaAlloc numPages;
      if memory =? 0 then mret 0
      else
        span ← new_Span;
        store_span span (mkSpan memory numPages 0);;
        modify (with_SpanMap <[memory := span]>);;
        mret memory
  end.

End OS.

Definition deallocateSpan (ptr numPages : Z) : M World () :=
  w ← get;
  match SpanMap_ w !! ptr with
  | None => mret ()
  | Some span =>
      let nextAddr := ptr + wrap (numPages * PAGE_SIZE) in
      match SpanMap_ w !! nextAddr with
      | Some nextSpan =>
          ns ← deref_span nextSpan;
          NextList ← FreeSpans_at (sizePages ns);
          found ← (if NextList =? nextSpan then
                     set_FreeSpans (sizePages ns) (next ns);; mret true
                   else if NextList =? 0 then mret false
                   else unlink_walk (S (size (spans w))) NextList nextSpan);
          if (found : bool) then
            s ← deref_span span;
            ns' ← deref_span nextSpan;
            store_span span
              (mkSpan (PageAddr s) (wrap (sizePages s + sizePages ns')) (next s));;
            modify (with_SpanMap (delete nextAddr));;
            delete_Span nextSpan
          else mret ()
      | None => mret ()
      end;;
      s ← deref_span span;
      list ← FreeSpans_at (sizePages s);
      store_span span (mkSpan (PageAddr s) (sizePages s) list);;
      set_FreeSpans (sizePages s) span
  end.





(** Calls on the PageCache; an allocation carries the answer the operating
    system gives should the call reach it. *)
Inductive PageOp :=
  | OpAllocateSpan (numPages : Z) (mmap : Z → option Z)
  | OpDeallocateSpan (ptr numPages : Z).

Definition run_op (op : PageOp) : M World () :=
  match op with
  | OpAllocateSpan numPages mmap => allocateSpan mmap numPages;; mret ()
  | OpDeallocateSpan ptr numPages => deallocateSpan ptr numPages
  end.

Fixpoint run_ops (ops : list PageOp) : M World () :=
  match ops with
  | [] => mret ()
  | op :: ops' => run_op op;; run_ops ops'
  end.

(** ** CentralCache (CentralCache.cpp) *)

(** [for (i = from; i < to; ++i) *(start + (i - 1) * size) = start + i * size] *)
Fixpoint link_blocks (fuel : nat) (start size i : Z) : M World () :=
  match fuel with
  | O => mret ()
  | S fuel' =>
      store (start + wrap (wrap (i - 1) * size)) (start + wrap (i * size));;
      link_blocks fuel' start size (wrap (i + 1))
  end.

(** [while (current && count < batchNum) { prev = current; current = *current; count++; }];
    the fuel is what is left of [batchNum - count] *)
Fixpoint take_walk (fuel : nat) (prev current : Z) : M World (Z * Z) :=
  match fuel with
  | O => mret (prev, current)
  | S fuel' =>
      if current =? 0 then mret (prev, current)
      else nxt ← load current; take_walk fuel' current nxt
  end.

(** [while ( *end != nullptr && count < size) { end = *end; count++; }];
    the fuel is what is left of [size - count] *)
Fixpoint tail_walk (fuel : nat) (tail : Z) : M World Z :=
  match fuel with
  | O => nxt ← load tail; mret tail
  | S fuel' =>
      nxt ← load tail;
      if nxt =? 0 then mret tail else tail_walk fuel' nxt
  end.

Module CentralCache.

Section OS.

Variable mmap : Z → option Z.

Definition fetchFromPageCache (size : Z) : M World Z :=
  let Size_Index := wrap (size + PAGE_SIZE - 1) / PAGE_SIZE in
  if Size_Index <=? SPAN_PAGES * PAGE_SIZE then
    allocateSpan mmap SPAN_PAGES
  else
    allocateSpan mmap Size_Index.

Definition fetchRange (index batchNum : Z) : M World Z :=
  if (FREE_LIST_SIZE <=? index) || (batchNum =? 0) then mret 0
  else
    result ← central_at index;
    if result =? 0 then
      let size := wrap (wrap (index + 1) * ALIGNMENT) in
      result ← fetchFromPageCache size;
      if result =? 0 then mret 0
      else if size =? 0 then fail
      else
        let start := result in
        let totalBlocks := (SPAN_PAGES * PAGE_SIZE) / size in
        let allocBlocks := Z.min batchNum totalBlocks in
        (if 1 <? allocBlocks then
           link_blocks (Z.to_nat (allocBlocks - 1)) start size 1;;
           store (start + wrap (wrap (allocBlocks - 1) * size)) 0
         else mret ());;
        (if allocBlocks <? totalBlocks then
           let remainStart := start + wrap (allocBlocks * size) in
           link_blocks (Z.to_nat (totalBlocks - (allocBlocks + 1)))
                       start size (wrap (allocBlocks + 1));;
           store (start + wrap (wrap (totalBlocks - 1) * size)) 0;;
           set_central index remainStart
         else mret ());;
        mret result
    else
      '(prev, current) ← take_walk (Z.to_nat batchNum) 0 result;
      (if prev =? 0 then mret () else store prev 0);;
      set_central index current;;
      mret result.

End OS.

Definition returnRange (ptr size index : Z) : M World () :=
  if (ptr =? 0) || (FREE_LIST_SIZE <=? index) then mret ()
  else
    tail ← tail_walk (Z.to_nat (size - 1)) ptr;
    current ← central_at index;
    store tail current;;
    set_central index ptr.

End CentralCache.

(** ** ThreadCache (ThreadCache.h) *)

(** What [allocate] returns: the pointer [malloc(size)] gave, or a pointer of
    the pool ([0] is the null pointer). *)
Inductive AllocResult :=
  | FromMalloc (size : Z)
  | FromPool (ptr : Z).

(** The loop of [returnThreadCache]:
    [for (i = 0; i < RetainNum - 1; ++i)
       { splitNode = *splitNode;
         if (splitNode == nullptr) { FreesizeNum = batchNum - (i + 1); break; } }] *)
Fixpoint split_walk (fuel : nat) (i splitNode FreesizeNum batchNum : Z) : M World (Z * Z) :=
  match fuel with
  | O => mret (splitNode, FreesizeNum)
  | S fuel' =>
      nxt ← load splitNode;
      if nxt =? 0 then mret (0, wrap (batchNum - (i + 1)))
      else split_walk fuel' (i + 1) nxt FreesizeNum batchNum
  end.

Module ThreadCache.

Definition allocate (size : Z) : M World AllocResult :=
  let size := if size =? 0 then ALIGNMENT else size in
  if MAX_BYTES <? size then mret (FromMalloc size)
  else
    let index := SizeClass.getIndex size in
    n ← freeListSize_at index;
    set_freeListSize index (wrap (n - 1));;
    ptr ← freeList_at index;
    if ptr =? 0 then mret (FromPool 0)
    else
      nxt ← load ptr;
      set_freeList index nxt;;
      mret (FromPool ptr).

Definition shuoReturnThreadCache (index : Z) : M World bool :=
  let thread := 64 in
  n ← freeListSize_at index;
  mret (thread <? n).

Definition returnThreadCache (ptr size : Z) : M World () :=
  let index := SizeClass.getIndex size in
  let AllSize := SizeClass.roundUp size in
  batchNum ← freeListSize_at index;
  if batchNum <=? 1 then mret ()
  else
    let RetainNum := Z.max (batchNum / 2) 1 in
    let FreesizeNum := wrap (batchNum - RetainNum) in
    '(splitNode, FreesizeNum) ←
      split_walk (Z.to_nat (RetainNum - 1)) 0 ptr FreesizeNum batchNum;
    if splitNode =? 0 then mret ()
    else
      nextNode ← load splitNode;
      store splitNode 0;;
      set_freeList index nextNode;;
      set_freeListSize index RetainNum;;
      if (0 <? RetainNum) && negb (nextNode =? 0) then
        CentralCache.returnRange nextNode FreesizeNum index
      else mret ().

Definition deallocate (ptr size : Z) : M World () :=
  if MAX_BYTES <? size then mret ()
  else
    let index := SizeClass.getIndex size in
    head ← freeList_at index;
    store ptr head;;
    set_freeList index ptr;;
    n ← freeListSize_at index;
    set_freeListSize index (wrap (n + 1));;
    spill ← shuoReturnThreadCache index;
    if (spill : bool) then returnThreadCache ptr size else mret ().

Section OS.

Variable mmap : Z → option Z.

Definition fetchFromCentralCache (index : Z) : M World Z :=
  let size := wrap (wrap (index + 1) * ALIGNMENT) in
  batchNum ← lift_option (getBatchNum size);
  start ← CentralCache.fetchRange mmap index batchNum;
  if start =? 0 then mret 0
  else
    n ← freeListSize_at index;
    set_freeListSize index (wrap (n + batchNum));;
    let result := start in
    (if 1 <? batchNum then
       nxt ← load start;
       set_freeList index nxt
     else mret ());;
    mret result.

End OS.

End ThreadCache.

(** A null-terminated or open chain of blocks in memory: [lseg m p l q] holds
    when following the stored links from [p] visits exactly the blocks [l]
    and then arrives at [q]. *)
Fixpoint lseg (m : gmap Z Z) (p : Z) (l : list Z) (q : Z) : Prop :=
  match l with
  | [] => p = q
  | x :: l' => p = x ∧ x ≠ 0 ∧ ∃ n, m !! x = Some n ∧ lseg m n l' q
  end.

(** The count the design retains at a spill, [ceil(N/2)] *)
Definition ceil_half (N : Z) : Z := (N + 1) / 2.

(** The free-span map once the head of the list under [K] is unlinked:
    the entry moves on to [next s], or is erased when the list ends there. *)
Definition unlink_head (K : Z) (s : Span) (fs : gmap Z Z) : gmap Z Z :=
  if next s =? 0 then delete K fs else <[K := next s]> fs.

(** A PageCache holding one free span of three pages. *)
Definition best_fit_world : World :=
  mkWorld ∅ ∅ ∅ ∅ {[ 1 := mkSpan 1048576 3 0 ]} {[ 3 := 1 ]} {[ 1048576 := 1 ]}.

(** A PageCache with one span of one page handed out, and the state the
    release of that span leaves. *)
Definition live_span_world : World :=
  mkWorld ∅ ∅ ∅ ∅ {[ 1 := mkSpan 1048576 1 0 ]} ∅ {[ 1048576 := 1 ]}.

Definition released_world : World :=
  mkWorld ∅ ∅ ∅ ∅ {[ 1 := mkSpan 1048576 1 0 ]} {[ 1 := 1 ]} {[ 1048576 := 1 ]}.


(** Two adjacent spans handed out: one page at [1048576], eight pages behind it. *)
Definition two_live_spans_world : World :=
  mkWorld ∅ ∅ ∅ ∅
          {[ 1 := mkSpan 1048576 1 0; 2 := mkSpan 1052672 8 0 ]}
          ∅
          {[ 1048576 := 1; 1052672 := 2 ]}.

(** A span of one page handed out, with a free span of two pages behind it. *)
Definition merge_world : World :=
  mkWorld ∅ ∅ ∅ ∅
          {[ 1 := mkSpan 1048576 1 0; 2 := mkSpan 1052672 2 0 ]}
          {[ 2 := 2 ]}
          {[ 1048576 := 1; 1052672 := 2 ]}.

(** [deallocate (_, size)] in [w] finds the counter of the class above the
    threshold after it has pushed, and spills. *)
Definition spills (w : World) (size : Z) : Prop :=
  64 < wrap (default 0 (_freeListSize w !! SizeClass.getIndex size) + 1).

(** The state after [ptr] has been pushed on the free list of the class of
    [size] and the counter incremented. *)
Definition pushed (ptr size : Z) (w : World) : World :=
  let index := SizeClass.getIndex size in
  with_freeListSize
    <[index := wrap (default 0 (_freeListSize w !! index) + 1)]>
    (with_freeList <[index := ptr]>
       (with_mem <[ptr := default 0 (_freeList w !! index)]> w)).

(** Decidable form of [lseg] *)
Fixpoint lsegb (m : gmap Z Z) (p : Z) (l : list Z) (q : Z) : bool :=
  match l with
  | [] => p =? q
  | x :: l' =>
      (p =? x) && negb (x =? 0)
      && match m !! x with
         | Some n => lsegb m n l' q
         | None => false
         end
  end.

(** The memory of a null-terminated chain through the blocks [l] *)
Fixpoint chain_mem (l : list Z) : gmap Z Z :=
  match l with
  | [] => ∅
  | x :: l' => <[x := hd 0 l']> (chain_mem l')
  end.

(** A thread whose list of the 16-byte class holds 64 blocks, and the blocks
    that follow the first 32 once the block at [8192] is pushed. *)
Definition spill_blocks : list Z := map (λ j, 4096 + 16 * Z.of_nat j) (seq 1 64).

Definition spill_world : World :=
  mkWorld (chain_mem spill_blocks) {[ 1 := hd 0 spill_blocks ]} {[ 1 := 64 ]} ∅ ∅ ∅ ∅.

Definition shipped_blocks : list Z := drop 32 (8192 :: spill_blocks).

(** The two halves of the spill rule as the design words it, for the call
    [deallocate p n] in [w] with [N] the length after the push: the
    thread-local list retains [ceil(N/2)] blocks, and the chain handed to
    CentralCache, in front of what its list held, has the remaining
    [N - ceil(N/2)]. *)
Definition spill_counter_is_ceil (w : World) (p n : Z) : Prop :=
  let i := SizeClass.getIndex n in
  let N := default 0 (_freeListSize w !! i) + 1 in
  ∀ w', ThreadCache.deallocate p n w = Some ((), w') →
        default 0 (_freeListSize w' !! i) = Z.max (ceil_half N) 1.

Definition spill_ships_rest (w : World) (p n : Z) : Prop :=
  let i := SizeClass.getIndex n in
  let N := default 0 (_freeListSize w !! i) + 1 in
  ∀ w', ThreadCache.deallocate p n w = Some ((), w') →
  ∀ shipped, lseg (mem w') (default 0 (centralFreeList_ w' !! i)) shipped
                  (default 0 (centralFreeList_ w !! i)) →
             Z.of_nat (length shipped) = N - Z.max (ceil_half N) 1.

(** [w'] differs from [w] at most in block memory and in the slots of class
    [i] of the thread's and the central arrays: the PageCache is the same
    and every other class is untouched. *)
Definition class_local (i : Z) (w w' : World) : Prop :=
  spans w' = spans w ∧ FreeSpans_ w' = FreeSpans_ w ∧ SpanMap_ w' = SpanMap_ w
  ∧ ∀ j, j ≠ i →
      _freeList w' !! j = _freeList w !! j
      ∧ _freeListSize w' !! j = _freeListSize w !! j
      ∧ centralFreeList_ w' !! j = centralFreeList_ w !! j.

(** A thread whose list of the 16-byte class holds the blocks at [4096] and
    [8192]. *)
Definition two_block_world : World :=
  mkWorld (chain_mem [4096; 8192]) {[ 1 := 4096 ]} {[ 1 := 2 ]} ∅ ∅ ∅ ∅.

(** A CentralCache whose list of the 16-byte class holds three blocks, and
    the same with a chain of two further blocks about to be returned. *)
Definition central_world : World :=
  mkWorld (chain_mem [4096; 8192; 12288]) ∅ ∅ {[ 1 := 4096 ]} ∅ ∅ ∅.

Definition returning_world : World :=
  mkWorld (chain_mem [16384; 20480] ∪ chain_mem [4096; 8192; 12288])
          ∅ ∅ {[ 1 := 4096 ]} ∅ ∅ ∅.

(** A PageCache whose free-span map holds a span of one page and a null
    head under eight pages. *)
Definition null_head_world : World :=
  mkWorld ∅ ∅ ∅ ∅
          {[ 1 := mkSpan 1048576 1 0; 2 := mkSpan 1052672 8 0 ]}
          (<[ 8 := 0 ]> {[ 1 := 1 ]})
          {[ 1048576 := 1; 1052672 := 2 ]}.

(** [w'] differs from [w] at most in the PageCache: block memory, the
    thread's lists and the central lists are the same. *)
Definition page_cache_only (w w' : World) : Prop :=
  mem w' = mem w ∧ _freeList w' = _freeList w
  ∧ _freeListSize w' = _freeListSize w ∧ centralFreeList_ w' = centralFreeList_ w.

(** The addresses of [count] consecutive blocks of [size] bytes of the span
    at [start], from block number [from] on. *)
Fixpoint block_addrs (start size from : Z) (count : nat) : list Z :=
  match count with
  | O => []
  | S count' => (start + from * size) :: block_addrs start size (from + 1) count'
  end.

(** Two adjacent spans granted by the operating system, two pages at
    [1052672] and then one page right below them at [1048576], released in
    the same order: the second release merges the two. *)
Definition coalesce_ops : list PageOp :=
  [OpAllocateSpan 2 (λ _, Some 1052672); OpAllocateSpan 1 (λ _, Some 1048576);
   OpDeallocateSpan 1052672 2; OpDeallocateSpan 1048576 1].

(** A thread whose counter of the 16-byte class is one behind its list: 65
    blocks on the list, 64 on the counter, as after one [allocate] on the
    empty list (the counter wraps to [2^64 - 1]) and 65 calls of
    [deallocate]. *)
Definition drift_blocks : list Z := map (λ j, 4096 + 16 * Z.of_nat j) (seq 1 65).

(** [allocate size] on a cold thread cache, then [deallocate (p, size)] for
    the blocks [p] of [l], the last one first. *)
Definition miss_then_free (size : Z) (l : list Z) : M World () :=
  ThreadCache.allocate size;;
  foldr (λ p k, k;; ThreadCache.deallocate p size) (mret ()) l.

Definition drift_world : World :=
  mkWorld (chain_mem drift_blocks) {[ 1 := hd 0 drift_blocks ]} {[ 1 := 64 ]} ∅ ∅ ∅ ∅.

(** * Properties of SizeClass *)

Section SizeClassFacts.

(** Clearing the three low bits of a 64-bit value. *)
Lemma land_align_mask (x : Z) :
  0 ≤ x < SIZE_T_MOD →
  Z.land x (wrap (Z.lnot (ALIGNMENT - 1))) = ALIGNMENT * (x / ALIGNMENT).
Proof.
  intros Hx.
  replace (wrap (Z.lnot (ALIGNMENT - 1))) with (Z.shiftl (Z.ones 61) 3)
    by (vm_compute; reflexivity).
  replace (ALIGNMENT * (x / ALIGNMENT)) with (Z.shiftl (Z.shiftr x 3) 3).
  2:{ rewrite Z.shiftl_mul_pow2, Z.shiftr_div_pow2 by lia.
      unfold ALIGNMENT. change (2 ^ 3) with 8. lia. }
  apply Z.bits_inj'. intros n Hn.
  rewrite Z.land_spec.
  destruct (Z.ltb_spec n 3) as [Hlt | Hge].
  - rewrite !Z.shiftl_spec_low by lia. apply andb_false_r.
  - rewrite !Z.shiftl_spec by lia.
    rewrite Z.shiftr_spec by lia.
    replace (n - 3 + 3) with n by lia.
    destruct (Z.ltb_spec n 64) as [Hlt | Hge'].
    + rewrite Z.ones_spec_low by lia. apply andb_true_r.
    + rewrite Z.ones_spec_high by lia. rewrite andb_false_r.
      symmetry. destruct (Z.eq_dec x 0) as [-> | Hnz].
      * apply Z.bits_0.
      * apply Z.bits_above_log2; [lia |].
        assert (Z.log2 x < 64); [| lia].
        apply Z.log2_lt_pow2; [lia |]. unfold SIZE_T_MOD, SIZE_T_BITS in Hx. lia.
Qed.

Lemma roundUp_div (n : Z) :
  0 ≤ n ≤ SIZE_T_MOD - ALIGNMENT →
  SizeClass.roundUp n = ALIGNMENT * ((n + 7) / ALIGNMENT).
Proof.
  intros Hn. unfold SizeClass.roundUp.
  assert (Hw : wrap (n + ALIGNMENT - 1) = n + 7).
  { unfold wrap. rewrite Z.mod_small; unfold ALIGNMENT, SIZE_T_MOD, SIZE_T_BITS in *; lia. }
  rewrite Hw. apply land_align_mask.
  unfold ALIGNMENT, SIZE_T_MOD, SIZE_T_BITS in *. lia.
Qed.

Lemma getIndex_div (n : Z) :
  0 ≤ n ≤ SIZE_T_MOD - ALIGNMENT →
  SizeClass.getIndex n = (Z.max n ALIGNMENT + 7) / ALIGNMENT - 1.
Proof.
  intros Hn. unfold SizeClass.getIndex, wrap.
  unfold ALIGNMENT, SIZE_T_MOD, SIZE_T_BITS in *.
  rewrite (Z.mod_small (Z.max n 8 + 8 - 1)) by lia.
  replace (Z.max n 8 + 8 - 1) with (Z.max n 8 + 7) by lia.
  apply Z.mod_small.
  assert (1 ≤ (Z.max n 8 + 7) / 8) by (apply Z.div_le_lower_bound; lia).
  assert ((Z.max n 8 + 7) / 8 ≤ Z.max n 8 + 7) by (apply Z.div_le_upper_bound; lia).
  lia.
Qed.

End SizeClassFacts.

(** C5. For every [n] with [1 <= n <= MAX_BYTES],
    [roundUp n = (getIndex n + 1) * ALIGNMENT] and
    [0 <= getIndex n < FREE_LIST_SIZE], with [ALIGNMENT = 8],
    [MAX_BYTES = 262144] and [FREE_LIST_SIZE = 32768]. *)
Theorem roundUp_getIndex_agree (n : Z) :
  1 ≤ n ≤ MAX_BYTES →
  SizeClass.roundUp n = (SizeClass.getIndex n + 1) * ALIGNMENT
  ∧ 0 ≤ SizeClass.getIndex n < FREE_LIST_SIZE
  ∧ ALIGNMENT = 8 ∧ MAX_BYTES = 262144 ∧ FREE_LIST_SIZE = 32768.
Proof.
  intros Hn.
  assert (Hr : 0 ≤ n ≤ SIZE_T_MOD - ALIGNMENT)
    by (unfold MAX_BYTES, SIZE_T_MOD, SIZE_T_BITS, ALIGNMENT in *; lia).
  rewrite roundUp_div, getIndex_div by exact Hr.
  unfold FREE_LIST_SIZE. unfold MAX_BYTES, ALIGNMENT in *.
  change (256 * 1024 / 8) with 32768.
  assert (H8 : (Z.max n 8 + 7) / 8 = (n + 7) / 8).
  { destruct (Z.le_ge_cases 8 n) as [Hle | Hle].
    - rewrite Z.max_l by lia. reflexivity.
    - rewrite Z.max_r by lia.
      change ((8 + 7) / 8) with 1.
      apply Z.div_unique with (r := n - 1); lia. }
  rewrite H8.
  assert (1 ≤ (n + 7) / 8) by (apply Z.div_le_lower_bound; lia).
  assert ((n + 7) / 8 < 32769) by (apply Z.div_lt_upper_bound; lia).
  repeat split; lia.
Qed.

Lemma roundUp_getIndex_agree_witness :
  SizeClass.roundUp 10 = (SizeClass.getIndex 10 + 1) * ALIGNMENT
  ∧ 0 ≤ SizeClass.getIndex 10 < FREE_LIST_SIZE
  ∧ ALIGNMENT = 8 ∧ MAX_BYTES = 262144 ∧ FREE_LIST_SIZE = 32768.
Proof. apply (roundUp_getIndex_agree 10). unfold MAX_BYTES. lia. Defined.

(** The wrap of the addition at the top of the [size_t] range. *)
Lemma roundUp_wraps_at_top : SizeClass.roundUp (SIZE_T_MOD - 1) = 0.
Proof. vm_compute. reflexivity. Qed.

(** C8, as stated, at [n = 0]: [roundUp 0] is [0], which is not the smallest
    multiple of [ALIGNMENT] that is at least [max 0 ALIGNMENT = 8]. *)
Lemma roundUp_zero_is_not_ALIGNMENT :
  SizeClass.roundUp 0 = 0
  ∧ SizeClass.roundUp 0 ≠ ALIGNMENT
  ∧ ¬ smallest_multiple_ge ALIGNMENT (Z.max 0 ALIGNMENT) (SizeClass.roundUp 0).
Proof.
  assert (H0 : SizeClass.roundUp 0 = 0) by (vm_compute; reflexivity).
  rewrite H0. split; [reflexivity |]. split; [discriminate |].
  intros (_ & Hle & _). revert Hle. unfold ALIGNMENT. lia.
Qed.

(** C8, amended. For every [n] with [1 <= n <= 2^64 - ALIGNMENT], [roundUp n]
    is the smallest multiple of [ALIGNMENT] that is at least
    [max n ALIGNMENT]; [roundUp 0] is [0]. *)
Theorem roundUp_smallest_multiple (n : Z) :
  1 ≤ n ≤ SIZE_T_MOD - ALIGNMENT →
  smallest_multiple_ge ALIGNMENT (Z.max n ALIGNMENT) (SizeClass.roundUp n)
  ∧ SizeClass.roundUp 0 = 0.
Proof.
  intros Hn. split; [| vm_compute; reflexivity].
  rewrite roundUp_div by lia.
  unfold smallest_multiple_ge, ALIGNMENT in *.
  pose proof (Z.div_mod (n + 7) 8 ltac:(lia)) as Hdm.
  pose proof (Z.mod_pos_bound (n + 7) 8 ltac:(lia)) as Hmod.
  split; [| split].
  - exists ((n + 7) / 8). lia.
  - lia.
  - intros m' [q ->] Hle.
    lia.
Qed.

Lemma roundUp_smallest_multiple_witness :
  smallest_multiple_ge ALIGNMENT (Z.max 10 ALIGNMENT) (SizeClass.roundUp 10)
  ∧ SizeClass.roundUp 0 = 0.
Proof.
  apply (roundUp_smallest_multiple 10).
  unfold SIZE_T_MOD, SIZE_T_BITS, ALIGNMENT. lia.
Defined.

(** * Batch sizing *)

(** Up to 512 bytes the batch count is the one of the table. *)
Lemma getBatchNum_table_small (s : Z) :
  0 < s ≤ 512 → getBatchNum s = Some (batch_table s).
Proof.
  intros Hs. unfold getBatchNum, batch_table, batch_baseline, MAX_BATCH_SIZE, SIZEOF_INT.
  destruct (Z.eqb_spec s 0) as [-> | _]; [lia |].
  change (4 * 1024) with 4096.
  assert (H8 : 8 ≤ 4096 / s) by (apply Z.div_le_lower_bound; lia).
  repeat (match goal with |- context [?a <=? ?b] => destruct (Z.leb_spec a b) end);
    try lia; f_equal; lia.
Qed.

(** C3. The batch count [getBatchNum] computes for a block size [s > 1024] is
    [sizeof(1) = 4], where the table [max(1, min(baseline, 4096/s))] gives
    exactly 1. *)
Theorem getBatchNum_above_1024 (s : Z) :
  1024 < s → getBatchNum s = Some 4 ∧ batch_table s = 1.
Proof.
  intros Hs. unfold getBatchNum, batch_table, batch_baseline, MAX_BATCH_SIZE, SIZEOF_INT.
  destruct (Z.eqb_spec s 0) as [-> | _]; [lia |].
  change (4 * 1024) with 4096.
  assert (H0 : 0 ≤ 4096 / s) by (apply Z.div_pos; lia).
  repeat (match goal with |- context [?a <=? ?b] => destruct (Z.leb_spec a b) end);
    try lia.
  split; [f_equal |]; lia.
Qed.

Lemma getBatchNum_above_1024_witness :
  getBatchNum 2048 = Some 4 ∧ batch_table 2048 = 1.
Proof. apply (getBatchNum_above_1024 2048). lia. Defined.

(** Between 513 and 1024 bytes the code also returns 4 where the table gives 2. *)
Lemma getBatchNum_1024 : getBatchNum 1024 = Some 4 ∧ batch_table 1024 = 2.
Proof. split; vm_compute; reflexivity. Qed.

(** * PageCache *)

(** Unfolding of the monad's operations in a goal. *)
Ltac monad_unfold :=
  unfold mbind, M_bind, mret, M_ret, get, modify, fail, lift_option in *.

(** C10. For every call [deallocateSpan ptr k] where [ptr] is not a key of
    [SpanMap_], the call returns and leaves the whole state, [FreeSpans_] and
    [SpanMap_] included, exactly as it was. *)
Theorem deallocateSpan_unknown_ptr (w : World) (ptr k : Z) :
  SpanMap_ w !! ptr = None →
  deallocateSpan ptr k w = Some ((), w).
Proof.
  intros Hnone. unfold deallocateSpan. monad_unfold.
  rewrite Hnone. reflexivity.
Qed.

Lemma deallocateSpan_unknown_ptr_witness :
  deallocateSpan 4096 1 empty_world = Some ((), empty_world).
Proof. apply (deallocateSpan_unknown_ptr empty_world 4096 1). reflexivity. Defined.

(** C4. For every block size of a size class, and every size up to
    [MAX_BYTES], [fetchFromPageCache] asks the PageCache for [SPAN_PAGES]
    pages: the comparison of the page count [Size_Index] with the byte count
    [SPAN_PAGES * PAGE_SIZE] never fails there. *)
Theorem fetchFromPageCache_always_SPAN_PAGES (mmap : Z → option Z) (size : Z) :
  0 ≤ size ≤ MAX_BYTES →
  CentralCache.fetchFromPageCache mmap size = allocateSpan mmap SPAN_PAGES.
Proof.
  intros Hs. unfold CentralCache.fetchFromPageCache.
  assert (Hw : wrap (size + PAGE_SIZE - 1) = size + 4095).
  { unfold wrap, PAGE_SIZE, MAX_BYTES, SIZE_T_MOD, SIZE_T_BITS in *.
    rewrite Z.mod_small; lia. }
  rewrite Hw.
  destruct (Z.leb_spec ((size + 4095) / PAGE_SIZE) (SPAN_PAGES * PAGE_SIZE)) as [_ | Hgt];
    [reflexivity |].
  exfalso. unfold PAGE_SIZE, SPAN_PAGES, MAX_BYTES in *.
  assert ((size + 4095) / 4096 < 66) by (apply Z.div_lt_upper_bound; lia).
  lia.
Qed.

Lemma fetchFromPageCache_always_SPAN_PAGES_witness :
  CentralCache.fetchFromPageCache (λ _, Some 1048576) 65536
  = allocateSpan (λ _, Some 1048576) SPAN_PAGES.
Proof.
  apply (fetchFromPageCache_always_SPAN_PAGES (λ _, Some 1048576) 65536).
  unfold MAX_BYTES. lia.
Defined.

(** A 64 KiB block needs [ceil(65536 / PAGE_SIZE) = 16] pages; the span the
    cold PageCache records for it has 8. *)
Lemma fetchFromPageCache_64KiB :
  (65536 + PAGE_SIZE - 1) / PAGE_SIZE = 16
  ∧ (λ r, (r.1, spans r.2 !! 1, SpanMap_ r.2 !! 1048576))
      <$> CentralCache.fetchFromPageCache (λ _, Some 1048576) 65536 empty_world
    = Some (1048576, Some (mkSpan 1048576 8 0), Some 1).
Proof. split; [reflexivity |]. vm_compute. reflexivity. Qed.

(** ** [lower_bound] *)

Section LowerBound.

Variable k : Z.

Lemma lower_bound_fold (l : list (Z * Z)) :
  match foldr (lower_bound_pick k) None l with
  | Some kv => kv ∈ l ∧ k ≤ kv.1 ∧ ∀ kv', kv' ∈ l → k ≤ kv'.1 → kv.1 ≤ kv'.1
  | None => ∀ kv', kv' ∈ l → ¬ k ≤ kv'.1
  end.
Proof.
  induction l as [| a l IH]; simpl.
  - intros kv' Hin. inversion Hin.
  - unfold lower_bound_pick at 1.
    destruct (foldr (lower_bound_pick k) None l) as [b |].
    + destruct IH as (Hin & Hle & Hmin).
      repeat case_bool_decide.
      * split; [left |]. split; [assumption |].
        intros kv' Hin' Hk'. apply elem_of_cons in Hin' as [-> | Hin']; [lia |].
        specialize (Hmin kv' Hin' Hk'). lia.
      * split; [right; assumption |]. split; [assumption |].
        intros kv' Hin' Hk'. apply elem_of_cons in Hin' as [-> | Hin']; [lia |].
        apply Hmin; assumption.
      * split; [right; assumption |]. split; [assumption |].
        intros kv' Hin' Hk'. apply elem_of_cons in Hin' as [-> | Hin']; [lia |].
        apply Hmin; assumption.
    + case_bool_decide.
      * split; [left |]. split; [assumption |].
        intros kv' Hin' Hk'. apply elem_of_cons in Hin' as [-> | Hin']; [lia |].
        exfalso. exact (IH kv' Hin' Hk').
      * intros kv' Hin'. apply elem_of_cons in Hin' as [-> | Hin']; [assumption |].
        apply IH; assumption.
Qed.

(** The least key that is at least [k] is the one [lower_bound] returns. *)
Lemma lower_bound_least (m : gmap Z Z) (K v : Z) :
  m !! K = Some v → k ≤ K →
  (∀ K' v', m !! K' = Some v' → k ≤ K' → K ≤ K') →
  lower_bound k m = Some (K, v).
Proof.
  intros HK Hle Hmin. unfold lower_bound.
  pose proof (lower_bound_fold (map_to_list m)) as Hf.
  destruct (foldr (lower_bound_pick k) None (map_to_list m)) as [[K0 v0] |].
  - destruct Hf as (Hin & Hk0 & Hmin0). simpl in *.
    apply elem_of_map_to_list in Hin.
    assert (K0 = K).
    { pose proof (Hmin K0 v0 Hin Hk0).
      pose proof (Hmin0 (K, v) ltac:(by apply elem_of_map_to_list) Hle). simpl in *. lia. }
    subst K0. congruence.
  - exfalso. apply (Hf (K, v)); [by apply elem_of_map_to_list | exact Hle].
Qed.

(** A map with an entry of key at least [k] has a least such key. *)
Lemma lower_bound_exists (m : gmap Z Z) (K0 v0 : Z) :
  m !! K0 = Some v0 → k ≤ K0 →
  ∃ K v, lower_bound k m = Some (K, v)
         ∧ m !! K = Some v ∧ k ≤ K ≤ K0
         ∧ ∀ K' v', m !! K' = Some v' → k ≤ K' → K ≤ K'.
Proof.
  intros HK0 Hle. unfold lower_bound.
  pose proof (lower_bound_fold (map_to_list m)) as Hf.
  destruct (foldr (lower_bound_pick k) None (map_to_list m)) as [[K v] |].
  - destruct Hf as (Hin & Hk & Hmin). simpl in *.
    exists K, v. split; [reflexivity |].
    split; [by apply elem_of_map_to_list |].
    split.
    + split; [exact Hk |].
      exact (Hmin (K0, v0) ltac:(by apply elem_of_map_to_list) Hle).
    + intros K' v' HK' Hk'.
      exact (Hmin (K', v') ltac:(by apply elem_of_map_to_list) Hk').
  - exfalso. apply (Hf (K0, v0)); [by apply elem_of_map_to_list | exact Hle].
Qed.

(** No key at least [k]: [lower_bound] is [end()]. *)
Lemma lower_bound_none (m : gmap Z Z) :
  (∀ K v, m !! K = Some v → K < k) → lower_bound k m = None.
Proof.
  intros Hall. unfold lower_bound.
  pose proof (lower_bound_fold (map_to_list m)) as Hf.
  destruct (foldr (lower_bound_pick k) None (map_to_list m)) as [[K0 v0] |];
    [| reflexivity].
  destruct Hf as (Hin & Hk0 & _). simpl in *.
  apply elem_of_map_to_list in Hin. specialize (Hall _ _ Hin). lia.
Qed.

End LowerBound.

(** ** [allocateSpan] on a free span *)

Lemma wrap_small (x : Z) : 0 ≤ x < SIZE_T_MOD → wrap x = x.
Proof. intros Hx. unfold wrap. apply Z.mod_small. exact Hx. Qed.

Lemma new_Span_fresh (w : World) :
  ∃ r, new_Span w = Some (r, w) ∧ r ≠ 0 ∧ spans w !! r = None.
Proof.
  unfold new_Span. eexists. split; [reflexivity |].
  pose proof (is_fresh ({[0]} ∪ dom (spans w))) as Hfresh.
  split.
  - intros Heq. apply Hfresh. rewrite Heq. set_solver.
  - apply not_elem_of_dom. set_solver.
Qed.

(** The best-fit path of [allocateSpan k] on a state whose [FreeSpans_] has
    an entry of page count at least [k], where [K] is the least such page
    count and the head [sp] of its list is a Span object (not a null head) of
    [orig >= k] pages at [base]:
    the call returns [base]; the head is unlinked from the list under [K];
    when [orig > k] a new span starting at [base + k * PAGE_SIZE] with
    [orig - k] pages is created and put at the head of [FreeSpans_[orig - k]];
    the taken span, now of [k] pages, is recorded in [SpanMap_] under [base]. *)
Theorem allocateSpan_best_fit (mmap : Z → option Z) (w : World) (k K sp : Z) (s : Span) :
  0 ≤ k →
  FreeSpans_ w !! K = Some sp → k ≤ K →
  (∀ K' v, FreeSpans_ w !! K' = Some v → k ≤ K' → K ≤ K') →
  sp ≠ 0 → spans w !! sp = Some s →
  k ≤ sizePages s → sizePages s * PAGE_SIZE < SIZE_T_MOD →
  ∃ w', allocateSpan mmap k w = Some (PageAddr s, w')
    ∧ SpanMap_ w' = <[PageAddr s := sp]> (SpanMap_ w)
    ∧ spans w' !! sp = Some (mkSpan (PageAddr s) k (next s))
    ∧ (if k <? sizePages s then
         ∃ r, r ≠ 0 ∧ spans w !! r = None
           ∧ spans w' =
               <[sp := mkSpan (PageAddr s) k (next s)]>
                 (<[r := mkSpan (PageAddr s + k * PAGE_SIZE) (sizePages s - k)
                          (default 0 (unlink_head K s (FreeSpans_ w) !! (sizePages s - k)))]>
                    (spans w))
           ∧ FreeSpans_ w' = <[sizePages s - k := r]> (unlink_head K s (FreeSpans_ w))
       else spans w' = spans w ∧ FreeSpans_ w' = unlink_head K s (FreeSpans_ w))
    ∧ mem w' = mem w ∧ _freeList w' = _freeList w
    ∧ _freeListSize w' = _freeListSize w ∧ centralFreeList_ w' = centralFreeList_ w.
Proof.
  intros Hk HK HkK Hmin Hsp Hs Hle Hfit.
  unfold allocateSpan. monad_unfold.
  rewrite (lower_bound_least k _ K sp HK HkK Hmin).
  unfold deref_span. pose proof Hsp as Hsp'. apply Z.eqb_neq in Hsp'. rewrite Hsp', Hs.
  assert (Hunlink : ∀ (A : Type) (f : World → option A),
    match (if next s =? 0 then λ s0 : World, Some ((), with_FreeSpans (delete K) s0)
           else set_FreeSpans K (next s)) w with
    | Some (_, s') => f s'
    | None => None
    end = f (with_FreeSpans (unlink_head K s) w)).
  { intros A f. unfold unlink_head, set_FreeSpans, modify, with_FreeSpans.
    destruct (next s =? 0); reflexivity. }
  rewrite Hunlink. clear Hunlink.
  destruct (Z.ltb_spec k (sizePages s)) as [Hlt | Hge].
  - destruct (new_Span_fresh (with_FreeSpans (unlink_head K s) w)) as (r & Hnew & Hr0 & Hrfresh).
    rewrite Hnew. simpl in Hrfresh.
    assert (Hw1 : wrap (k * PAGE_SIZE) = k * PAGE_SIZE)
      by (apply wrap_small; unfold PAGE_SIZE in *; lia).
    assert (Hw2 : wrap (sizePages s - k) = sizePages s - k)
      by (apply wrap_small; unfold PAGE_SIZE in *; lia).
    rewrite Hw1, Hw2.
    unfold FreeSpans_at, store_span, set_FreeSpans, modify. simpl.
    apply Z.eqb_neq in Hr0 as Hr0'.
    destruct (unlink_head K s (FreeSpans_ w) !! (sizePages s - k)) as [hd |] eqn:Hhd;
      simpl; rewrite Hr0'; simpl; rewrite Hsp'; simpl.
    all: eexists; split; [reflexivity |]; simpl.
    all: split; [reflexivity |].
    all: split; [apply lookup_insert_eq |].
    all: split; [| repeat split; reflexivity].
    all: exists r; split; [exact Hr0 |]; split; [exact Hrfresh |].
    all: split; [reflexivity |].
    + reflexivity.
    + apply insert_insert_eq.
  - assert (sizePages s = k) by lia. subst k.
    eexists. split; [reflexivity |]. simpl.
    split; [reflexivity |].
    split; [rewrite Hs; destruct s; reflexivity |].
    repeat split; reflexivity.
Qed.

Lemma allocateSpan_best_fit_witness :
  ∃ w', allocateSpan (λ _, None) 2 best_fit_world = Some (1048576, w')
    ∧ SpanMap_ w' = <[1048576 := 1]> (SpanMap_ best_fit_world)
    ∧ spans w' !! 1 = Some (mkSpan 1048576 2 0)
    ∧ (∃ r, r ≠ 0 ∧ spans best_fit_world !! r = None
         ∧ spans w' =
             <[1 := mkSpan 1048576 2 0]>
               (<[r := mkSpan (1048576 + 2 * PAGE_SIZE) (3 - 2)
                        (default 0 (unlink_head 3 (mkSpan 1048576 3 0)
                                      (FreeSpans_ best_fit_world) !! (3 - 2)))]>
                  (spans best_fit_world))
         ∧ FreeSpans_ w' = <[3 - 2 := r]> (unlink_head 3 (mkSpan 1048576 3 0)
                                               (FreeSpans_ best_fit_world)))
    ∧ mem w' = mem best_fit_world ∧ _freeList w' = _freeList best_fit_world
    ∧ _freeListSize w' = _freeListSize best_fit_world
    ∧ centralFreeList_ w' = centralFreeList_ best_fit_world.
Proof.
  apply (allocateSpan_best_fit (λ _, None) best_fit_world 2 3 1 (mkSpan 1048576 3 0)).
  - lia.
  - reflexivity.
  - lia.
  - intros K' v HK' _. unfold best_fit_world in HK'. simpl in HK'.
    apply lookup_singleton_Some in HK' as [<- _]. lia.
  - lia.
  - reflexivity.
  - simpl. lia.
  - simpl. unfold PAGE_SIZE, SIZE_T_MOD, SIZE_T_BITS. lia.
Defined.

(** ** [deallocateSpan] and the base-address map *)

Lemma bind_Some {S A B : Type} (c : M S A) (f : A → M S B) (s : S) (r : B * S) :
  (c ≫= f) s = Some r ↔ ∃ a s1, c s = Some (a, s1) ∧ f a s1 = Some r.
Proof.
  unfold mbind, M_bind. split.
  - destruct (c s) as [[a s1] |]; [| discriminate]. eauto.
  - intros (a & s1 & -> & Hf). exact Hf.
Qed.

Lemma deref_span_Some (sp : Z) (w w1 : World) (s : Span) :
  deref_span sp w = Some (s, w1) → w1 = w ∧ sp ≠ 0 ∧ spans w !! sp = Some s.
Proof.
  unfold deref_span. destruct (Z.eqb_spec sp 0); [discriminate |].
  destruct (spans w !! sp); [| discriminate].
  intros [= -> ->]. auto.
Qed.

Lemma store_span_Some (sp : Z) (s : Span) (w w1 : World) (u : ()) :
  store_span sp s w = Some (u, w1) → sp ≠ 0 ∧ w1 = with_spans <[sp := s]> w.
Proof.
  unfold store_span. destruct (Z.eqb_spec sp 0); [discriminate |].
  intros [= _ <-]. auto.
Qed.

Lemma FreeSpans_at_Some (k v : Z) (w w1 : World) :
  FreeSpans_at k w = Some (v, w1) →
  SpanMap_ w1 = SpanMap_ w ∧ spans w1 = spans w
  ∧ FreeSpans_ w1 !! k = Some v
  ∧ FreeSpans_ w1 = <[k := v]> (FreeSpans_ w).
Proof.
  unfold FreeSpans_at. destruct (FreeSpans_ w !! k) as [v0 |] eqn:Hk.
  - intros [= -> ->]. rewrite insert_id by exact Hk. auto.
  - intros [= <- <-]. simpl. rewrite lookup_insert_eq. auto.
Qed.





(** Forward coalescing: releasing the page at [1048576] while the two pages
    behind it are free merges the two spans into one of three pages, deletes
    the successor's Span and erases its base from [SpanMap_]. *)
Lemma deallocateSpan_merges_successor :
  (λ r, (spans r.2 !! 1, spans r.2 !! 2, FreeSpans_ r.2 !! 3,
         SpanMap_ r.2 !! 1048576, SpanMap_ r.2 !! 1052672))
    <$> deallocateSpan 1048576 1 merge_world
  = Some (Some (mkSpan 1048576 3 0), None, Some 1, Some 1, None).
Proof. vm_compute. reflexivity. Qed.


(** [deallocateSpan] reads [FreeSpans_[nextSpan->sizePages]] through
    [operator[]], which leaves a null head under that key when the successor
    is not free; an [allocateSpan] whose [lower_bound] lands on such an entry
    dereferences the null head. *)
Lemma allocateSpan_null_head :
  (λ r, (FreeSpans_ r.2 !! 8, allocateSpan (λ _, None) 2 r.2))
    <$> deallocateSpan 1048576 1 two_live_spans_world
  = Some (Some 0, None).
Proof. vm_compute. reflexivity. Qed.

(** C6. The code breaks the claim on a state it reaches by itself. After
    the run of [coalesce_ops] on a cold PageCache (two pages and the page
    right below them handed out, then released in the same order) the two
    spans are merged into a free span of three pages under [FreeSpans_[3]],
    and the unlinked list of the successor is left as a null head under
    [FreeSpans_[2]]. [allocateSpan 2] then finds an entry of page count at
    least 2, but [lower_bound] lands on key 2 and [span->next] dereferences
    its null head: whatever the operating system would answer, the call has
    no defined result, and the free span of three pages is not taken. *)
Theorem allocateSpan_misses_merged_span (mmap : Z → option Z) :
  ∃ w, run_ops coalesce_ops empty_world = Some ((), w)
    ∧ FreeSpans_ w !! 2 = Some 0
    ∧ FreeSpans_ w !! 3 = Some 2
    ∧ spans w !! 2 = Some (mkSpan 1048576 3 0)
    ∧ allocateSpan mmap 2 w = None.
Proof.
  assert (Hobs : (λ r, (FreeSpans_ r.2 !! 2, FreeSpans_ r.2 !! 3, spans r.2 !! 2))
                   <$> run_ops coalesce_ops empty_world
                 = Some (Some 0, Some 2, Some (mkSpan 1048576 3 0)))
    by (vm_compute; reflexivity).
  destruct (run_ops coalesce_ops empty_world) as [[[] w] |] eqn:Hrun;
    [| discriminate Hobs].
  change (Some (FreeSpans_ w !! 2, FreeSpans_ w !! 3, spans w !! 2)
          = Some (Some 0, Some 2, Some (mkSpan 1048576 3 0))) in Hobs.
  assert (Hnull : FreeSpans_ w !! 2 = Some 0) by congruence.
  assert (Hfree : FreeSpans_ w !! 3 = Some 2) by congruence.
  assert (Hspan : spans w !! 2 = Some (mkSpan 1048576 3 0)) by congruence.
  exists w. split; [reflexivity |]. split; [exact Hnull |].
  split; [exact Hfree |]. split; [exact Hspan |].
  unfold allocateSpan. monad_unfold.
  rewrite (lower_bound_least 2 _ 2 0 Hnull); [reflexivity | lia |].
  intros K' v _ HK'. exact HK'.
Qed.

(** * ThreadCache *)

Lemma getIndex_range (n : Z) :
  0 ≤ n ≤ MAX_BYTES → 0 ≤ SizeClass.getIndex n < FREE_LIST_SIZE.
Proof.
  intros Hn. rewrite getIndex_div
    by (unfold MAX_BYTES, SIZE_T_MOD, SIZE_T_BITS, ALIGNMENT in *; lia).
  unfold FREE_LIST_SIZE. unfold MAX_BYTES, ALIGNMENT in *.
  change (256 * 1024 / 8) with 32768.
  assert (1 ≤ (Z.max n 8 + 7) / 8) by (apply Z.div_le_lower_bound; lia).
  assert ((Z.max n 8 + 7) / 8 < 32769) by (apply Z.div_lt_upper_bound; lia).
  lia.
Qed.

Lemma slot_in_range (a : gmap Z Z) (i : Z) :
  0 ≤ i < FREE_LIST_SIZE → slot a i = Some (default 0 (a !! i)).
Proof. intros Hi. unfold slot. rewrite bool_decide_eq_true_2 by exact Hi. reflexivity. Qed.

(** C1. On a call [allocate n] with [0 < n <= MAX_BYTES] whose class free
    list is empty, the code returns the null pointer at once: the state of
    CentralCache and PageCache is not read or changed, the thread's list stays
    empty, and only the length counter is decremented. *)
Theorem allocate_miss_returns_null (w : World) (n : Z) :
  0 < n ≤ MAX_BYTES →
  default 0 (_freeList w !! SizeClass.getIndex n) = 0 →
  ThreadCache.allocate n w =
    Some (FromPool 0,
          with_freeListSize
            <[SizeClass.getIndex n :=
                wrap (default 0 (_freeListSize w !! SizeClass.getIndex n) - 1)]> w).
Proof.
  intros Hn Hempty. unfold ThreadCache.allocate.
  destruct (Z.eqb_spec n 0) as [-> | _]; [lia |].
  destruct (Z.ltb_spec MAX_BYTES n) as [Hgt | _]; [lia |].
  pose proof (getIndex_range n ltac:(lia)) as Hi.
  monad_unfold. unfold freeListSize_at, set_freeListSize, freeList_at.
  rewrite slot_in_range by exact Hi. simpl.
  rewrite bool_decide_eq_true_2 by exact Hi. simpl.
  rewrite slot_in_range by exact Hi. simpl.
  rewrite Hempty. reflexivity.
Qed.

Lemma allocate_miss_returns_null_witness :
  ThreadCache.allocate 16 empty_world =
    Some (FromPool 0,
          with_freeListSize
            <[SizeClass.getIndex 16 :=
                wrap (default 0 (_freeListSize empty_world !! SizeClass.getIndex 16) - 1)]>
            empty_world).
Proof.
  apply (allocate_miss_returns_null empty_world 16).
  - unfold MAX_BYTES. lia.
  - reflexivity.
Defined.

(** On the same cold state [fetchFromCentralCache] does deliver a block, which
    [allocate] never asks for. *)
Lemma allocate_cold_ignores_central :
  fst <$> ThreadCache.fetchFromCentralCache (λ _, Some 1048576) (SizeClass.getIndex 16)
            empty_world
  = Some 1048576
  ∧ (λ r, (r.1, centralFreeList_ r.2, SpanMap_ r.2, _freeList r.2, _freeListSize r.2 !! 1))
      <$> ThreadCache.allocate 16 empty_world
    = Some (FromPool 0, ∅, ∅, ∅, Some (SIZE_T_MOD - 1)).
Proof. split; vm_compute; reflexivity. Qed.

(** ** Push and pop on a class free list *)

(** The state [deallocate p n] leaves when it does not spill: the block is
    linked in front of the old head and the counter is incremented. *)
Lemma deallocate_no_spill (w : World) (p n : Z) :
  0 ≤ n ≤ MAX_BYTES → p ≠ 0 → ¬ spills w n →
  ThreadCache.deallocate p n w = Some ((), pushed p n w).
Proof.
  intros Hn Hp Hns. unfold ThreadCache.deallocate.
  destruct (Z.ltb_spec MAX_BYTES n) as [Hgt | _]; [lia |].
  pose proof (getIndex_range n Hn) as Hi.
  apply Z.eqb_neq in Hp.
  monad_unfold.
  unfold freeList_at, store, set_freeList, freeListSize_at, set_freeListSize,
    ThreadCache.shuoReturnThreadCache, freeListSize_at.
  monad_unfold.
  rewrite slot_in_range by exact Hi. simpl. rewrite Hp.
  rewrite bool_decide_eq_true_2 by exact Hi. simpl.
  rewrite slot_in_range by exact Hi. simpl.
  rewrite slot_in_range by exact Hi. simpl.
  rewrite lookup_insert_eq. simpl.
  unfold spills in Hns.
  destruct (Z.ltb_spec 64 (wrap (default 0 (_freeListSize w !! SizeClass.getIndex n) + 1)))
    as [Hlt | _]; [contradiction |].
  reflexivity.
Qed.

(** C9. The free list of a class is a LIFO stack: after [deallocate p1 n]
    and then [deallocate p2 n], neither of which spills, the next
    [allocate m] with [getIndex m = getIndex n] returns [p2].  The sizes are
    those of the pool ([<= MAX_BYTES]) and the freed pointers are not null. *)
Theorem free_list_LIFO (w : World) (p1 p2 n m : Z) :
  0 ≤ n ≤ MAX_BYTES → 0 ≤ m ≤ MAX_BYTES →
  SizeClass.getIndex m = SizeClass.getIndex n →
  p1 ≠ 0 → p2 ≠ 0 →
  ¬ spills w n → ¬ spills (pushed p1 n w) n →
  ∃ w1 w2 w3,
    ThreadCache.deallocate p1 n w = Some ((), w1)
    ∧ ThreadCache.deallocate p2 n w1 = Some ((), w2)
    ∧ ThreadCache.allocate m w2 = Some (FromPool p2, w3).
Proof.
  intros Hn Hm Hidx Hp1 Hp2 Hns1 Hns2.
  exists (pushed p1 n w), (pushed p2 n (pushed p1 n w)).
  rewrite (deallocate_no_spill w p1 n Hn Hp1 Hns1).
  rewrite (deallocate_no_spill _ p2 n Hn Hp2 Hns2).
  eexists. split; [reflexivity |]. split; [reflexivity |].
  unfold ThreadCache.allocate.
  assert (Hidx' : SizeClass.getIndex (if m =? 0 then ALIGNMENT else m) = SizeClass.getIndex n).
  { destruct (Z.eqb_spec m 0) as [-> | _]; [| exact Hidx].
    rewrite <- Hidx. vm_compute. reflexivity. }
  assert (Hsmall : (MAX_BYTES <? (if m =? 0 then ALIGNMENT else m)) = false).
  { apply Z.ltb_ge. destruct (m =? 0); [unfold ALIGNMENT, MAX_BYTES |]; lia. }
  rewrite Hsmall, Hidx'.
  pose proof (getIndex_range n Hn) as Hi.
  apply Z.eqb_neq in Hp2 as Hp2'.
  monad_unfold. unfold freeListSize_at, set_freeListSize, freeList_at, load, set_freeList.
  monad_unfold.
  rewrite slot_in_range by exact Hi. simpl.
  rewrite bool_decide_eq_true_2 by exact Hi. simpl.
  rewrite slot_in_range by exact Hi. simpl.
  rewrite lookup_insert_eq. simpl. rewrite Hp2'.
  unfold pushed at 1 3. simpl.
  rewrite lookup_insert_eq. reflexivity.
Qed.

Lemma free_list_LIFO_witness :
  ∃ w1 w2 w3,
    ThreadCache.deallocate 4096 16 empty_world = Some ((), w1)
    ∧ ThreadCache.deallocate 8192 16 w1 = Some ((), w2)
    ∧ ThreadCache.allocate 16 w2 = Some (FromPool 8192, w3).
Proof.
  apply (free_list_LIFO empty_world 4096 8192 16 16).
  - unfold MAX_BYTES. lia.
  - unfold MAX_BYTES. lia.
  - reflexivity.
  - lia.
  - lia.
  - unfold spills. vm_compute. intros H. discriminate H.
  - unfold spills. vm_compute. intros H. discriminate H.
Defined.

(** ** Chains of blocks *)

Lemma lseg_insert_notin (m : gmap Z Z) (x v p q : Z) (l : list Z) :
  x ∉ l → lseg m p l q → lseg (<[x := v]> m) p l q.
Proof.
  revert p. induction l as [| a l IH]; intros p Hx; simpl; [auto |].
  intros (-> & Ha & nx & Hnx & Hl).
  apply not_elem_of_cons in Hx as [Hxa Hxl].
  split; [reflexivity |]. split; [exact Ha |].
  exists nx. split; [| exact (IH _ Hxl Hl)].
  rewrite lookup_insert_ne by exact Hxa. exact Hnx.
Qed.

Lemma lseg_app (m : gmap Z Z) (p q : Z) (l1 l2 : list Z) :
  lseg m p (l1 ++ l2) q ↔ ∃ r, lseg m p l1 r ∧ lseg m r l2 q.
Proof.
  revert p. induction l1 as [| a l1 IH]; intros p; simpl.
  - split; [intros H; exists p; auto | intros (r & -> & H); exact H].
  - split.
    + intros (-> & Ha & nx & Hnx & Hl). apply IH in Hl as (r & Hl1 & Hl2).
      exists r. split; [| exact Hl2]. eauto 6.
    + intros (r & (-> & Ha & nx & Hnx & Hl1) & Hl2).
      split; [reflexivity |]. split; [exact Ha |].
      exists nx. split; [exact Hnx |]. apply IH. eauto.
Qed.

(** A chain that ends in null is determined by its first block, and visits
    no block twice. *)
Lemma lseg_functional (m : gmap Z Z) (p : Z) (l1 l2 : list Z) :
  lseg m p l1 0 → lseg m p l2 0 → l1 = l2.
Proof.
  revert p l2. induction l1 as [| x l1 IH]; intros p [| y l2]; simpl.
  - reflexivity.
  - intros -> (<- & Hy & _). contradiction.
  - intros (-> & Hx & _) ->. contradiction.
  - intros (-> & _ & n1 & Hn1 & H1) (<- & _ & n2 & Hn2 & H2).
    rewrite Hn1 in Hn2. injection Hn2 as <-.
    f_equal. exact (IH _ _ H1 H2).
Qed.

Lemma lseg_NoDup (m : gmap Z Z) (p : Z) (l : list Z) :
  lseg m p l 0 → NoDup l.
Proof.
  revert p. induction l as [| x l IH]; intros p; [constructor |].
  intros Hseg. pose proof Hseg as (-> & Hx & n & Hn & Hl).
  apply NoDup_cons. split; [| exact (IH _ Hl)].
  intros Hin. apply list_elem_of_split in Hin as (a & b & ->).
  apply lseg_app in Hl as (r & _ & Hsuffix).
  pose proof Hsuffix as (-> & _).
  pose proof (lseg_functional m x _ _ Hseg Hsuffix) as Heq.
  apply (f_equal length) in Heq. simpl in Heq. rewrite length_app in Heq.
  simpl in Heq. lia.
Qed.

(** The walk of [returnThreadCache] over [length l1] links of a chain stops
    on the block behind them and leaves [FreesizeNum] alone. *)
Lemma split_walk_lseg (w : World) (l1 l2 : list Z) (x p q i F N : Z) :
  lseg (mem w) p (l1 ++ x :: l2) q →
  split_walk (length l1) i p F N w = Some ((x, F), w).
Proof.
  revert p i. induction l1 as [| a l1 IH]; intros p i; simpl.
  - intros (-> & _). reflexivity.
  - intros (-> & Ha & nx & Hnx & Hl).
    monad_unfold. unfold load. apply Z.eqb_neq in Ha. rewrite Ha, Hnx.
    assert (Hnz : (nx =? 0) = false).
    { apply Z.eqb_neq. destruct l1; simpl in Hl; destruct Hl as (-> & Hnz & _); exact Hnz. }
    rewrite Hnz. apply IH. exact Hl.
Qed.

(** The walk of [returnRange] ends on the last block of a null-terminated
    chain when its count allows for the whole chain. *)
Lemma tail_walk_lseg (w : World) (l1 : list Z) (x p : Z) (fuel : nat) :
  lseg (mem w) p (l1 ++ [x]) 0 → (length l1 ≤ fuel)%nat →
  tail_walk fuel p w = Some (x, w).
Proof.
  revert p fuel. induction l1 as [| a l1 IH]; intros p fuel; simpl.
  - intros (-> & Hx & nx & Hnx & ->) _.
    apply Z.eqb_neq in Hx.
    destruct fuel; simpl; monad_unfold; unfold load; rewrite Hx, Hnx; reflexivity.
  - intros (-> & Ha & nx & Hnx & Hl) Hfuel.
    destruct fuel as [| fuel]; [lia |]. simpl.
    monad_unfold. unfold load. apply Z.eqb_neq in Ha. rewrite Ha, Hnx.
    assert (Hnz : (nx =? 0) = false).
    { apply Z.eqb_neq. destruct l1; simpl in Hl; destruct Hl as (-> & Hnz & _); exact Hnz. }
    rewrite Hnz. apply IH; [exact Hl | lia].
Qed.

Lemma deallocate_above_threshold (w : World) (p n : Z) :
  0 ≤ n ≤ MAX_BYTES → p ≠ 0 → spills w n →
  ThreadCache.deallocate p n w = ThreadCache.returnThreadCache p n (pushed p n w).
Proof.
  intros Hn Hp Hsp. unfold ThreadCache.deallocate.
  destruct (Z.ltb_spec MAX_BYTES n) as [Hgt | _]; [lia |].
  pose proof (getIndex_range n Hn) as Hi.
  apply Z.eqb_neq in Hp.
  monad_unfold.
  unfold freeList_at, store, set_freeList, freeListSize_at, set_freeListSize,
    ThreadCache.shuoReturnThreadCache, freeListSize_at.
  monad_unfold.
  rewrite slot_in_range by exact Hi. simpl. rewrite Hp.
  rewrite bool_decide_eq_true_2 by exact Hi. simpl.
  rewrite slot_in_range by exact Hi. simpl.
  rewrite slot_in_range by exact Hi. simpl.
  rewrite lookup_insert_eq. simpl.
  unfold spills in Hsp.
  destruct (Z.ltb_spec 64 (wrap (default 0 (_freeListSize w !! SizeClass.getIndex n) + 1)))
    as [_ | Hle]; [reflexivity | lia].
Qed.

(** The walk of [returnRange] over a chain [l1 ++ [x]] whose last block
    points to [q] stops on [x]: either [x] ends the chain ([q] is null) or
    the count is used up. *)
Lemma tail_walk_stops (w : World) (l1 : list Z) (x p q : Z) (fuel : nat) :
  lseg (mem w) p (l1 ++ [x]) q → (length l1 ≤ fuel)%nat →
  q = 0 ∨ length l1 = fuel →
  tail_walk fuel p w = Some (x, w).
Proof.
  revert p fuel. induction l1 as [| a l1 IH]; intros p fuel; simpl.
  - intros (-> & Hx & nx & Hnx & ->) _ Hstop.
    apply Z.eqb_neq in Hx.
    destruct fuel; simpl; monad_unfold; unfold load; rewrite Hx, Hnx; [reflexivity |].
    destruct Hstop as [-> | Hstop]; [reflexivity | discriminate Hstop].
  - intros (-> & Ha & nx & Hnx & Hl) Hfuel Hstop.
    destruct fuel as [| fuel]; [lia |]. simpl.
    monad_unfold. unfold load. apply Z.eqb_neq in Ha. rewrite Ha, Hnx.
    assert (Hnz : (nx =? 0) = false).
    { apply Z.eqb_neq. destruct l1; simpl in Hl; destruct Hl as (-> & Hnz & _); exact Hnz. }
    rewrite Hnz. apply IH; [exact Hl | lia |].
    destruct Hstop as [-> | Hstop]; [left; reflexivity | right; lia].
Qed.

(** [returnThreadCache] on a class list [l1 ++ x :: rest] whose counter is
    [N], with [length l1 = N/2 - 1] and [rest] not empty: the list is cut
    behind [x], the counter becomes [N/2], and the first [N - N/2] blocks of
    [rest] (all of them when there are fewer) are spliced in front of the
    central list. The counter need not be the length of the list. *)
Lemma returnThreadCache_cuts (w : World) (p n x N : Z) (l1 rest : list Z) :
  0 ≤ n ≤ MAX_BYTES →
  let i := SizeClass.getIndex n in
  lseg (mem w) p (l1 ++ x :: rest) 0 →
  rest ≠ [] →
  default 0 (_freeListSize w !! i) = N →
  2 ≤ N < SIZE_T_MOD →
  Z.of_nat (length l1) = N / 2 - 1 →
  ∃ w', ThreadCache.returnThreadCache p n w = Some ((), w')
    ∧ default 0 (_freeListSize w' !! i) = N / 2
    ∧ lseg (mem w') (default 0 (centralFreeList_ w' !! i))
           (take (Z.to_nat (N - N / 2)) rest)
           (default 0 (centralFreeList_ w !! i)).
Proof.
  intros Hn i Hseg Hrest Hcount HN Hl1.
  pose proof (getIndex_range n Hn) as Hi. fold i in Hi.
  pose proof (lseg_NoDup _ _ _ Hseg) as Hnd.
  assert (HR : 1 ≤ N / 2) by (apply Z.div_le_lower_bound; lia).
  assert (HRN : N / 2 < N) by (apply Z.div_lt; lia).
  unfold ThreadCache.returnThreadCache. fold i.
  monad_unfold. unfold freeListSize_at.
  rewrite slot_in_range by exact Hi. simpl. rewrite Hcount.
  destruct (Z.leb_spec N 1) as [Hle | _]; [lia |].
  rewrite Z.max_l by lia.
  replace (Z.to_nat (N / 2 - 1)) with (length l1) by lia.
  rewrite (split_walk_lseg w l1 rest x p 0 0 _ N Hseg).
  apply lseg_app in Hseg as (r & _ & Htail).
  destruct Htail as (-> & Hx & nx & Hnx & Hship).
  assert (Hnx0 : nx ≠ 0).
  { destruct rest; [contradiction |].
    simpl in Hship; destruct Hship as (-> & Hnz & _); exact Hnz. }
  apply NoDup_app in Hnd as (_ & _ & Hnd). apply NoDup_cons in Hnd as [Hxnotin Hndrest].
  pose proof (lseg_insert_notin (mem w) x 0 nx 0 rest Hxnotin Hship) as Hship2.
  set (F := Z.to_nat (N - N / 2)).
  assert (HF : (1 ≤ F)%nat) by (unfold F; lia).
  (* the chain that is shipped, and its last block *)
  rewrite <- (take_drop F rest) in Hship2, Hndrest.
  apply lseg_app in Hship2 as (q & Hpre & Hpost).
  apply NoDup_app in Hndrest as (Hndship & _ & _).
  assert (Hne : take F rest ≠ []).
  { destruct rest; [contradiction |]. destruct F; [lia | discriminate]. }
  destruct (exists_last Hne) as (l3 & z & Hlast).
  assert (Hlen : length (take F rest) = S (length l3)).
  { rewrite Hlast, length_app. simpl. lia. }
  rewrite length_take in Hlen.
  assert (Hstop : q = 0 ∨ length l3 = (F - 1)%nat).
  { destruct (decide (F ≤ length rest)%nat) as [Hle | Hgt]; [right; lia | left].
    rewrite drop_ge in Hpost by lia. exact Hpost. }
  rewrite Hlast in Hpre, Hndship.
  assert (Hznotin : z ∉ l3).
  { apply NoDup_app in Hndship as (_ & Hdis & _).
    intros Hz. apply (Hdis z Hz). left. }
  set (w4 := with_freeListSize <[i := N / 2]>
               (with_freeList <[i := nx]> (with_mem <[x := 0]> w))).
  assert (Hwalk : tail_walk (Z.to_nat (wrap (N - N / 2) - 1)) nx w4 = Some (z, w4)).
  { replace (Z.to_nat (wrap (N - N / 2) - 1)) with (F - 1)%nat
      by (rewrite wrap_small by lia; unfold F; lia).
    apply (tail_walk_stops w4 l3 z nx q); [exact Hpre | lia | exact Hstop]. }
  apply Z.eqb_neq in Hx as Hx'. apply Z.eqb_neq in Hnx0 as Hnx0'.
  assert (Hz0 : (z =? 0) = false).
  { apply Z.eqb_neq. apply lseg_app in Hpre as (r & _ & (-> & Hz & _)). exact Hz. }
  rewrite Hx'. unfold load, store, set_freeList, set_freeListSize. monad_unfold.
  rewrite Hx', Hnx. rewrite !bool_decide_eq_true_2 by exact Hi.
  replace (0 <? N / 2) with true by (symmetry; apply Z.ltb_lt; lia).
  rewrite Hnx0'. simpl. fold w4.
  unfold CentralCache.returnRange. rewrite Hnx0'.
  replace (FREE_LIST_SIZE <=? i) with false by (symmetry; apply Z.leb_gt; lia).
  simpl. monad_unfold. rewrite Hwalk.
  unfold central_at, set_central, store. monad_unfold.
  rewrite slot_in_range by exact Hi. simpl. rewrite Hz0.
  rewrite bool_decide_eq_true_2 by exact Hi.
  eexists. split; [reflexivity |]. simpl.
  rewrite !lookup_insert_eq. simpl. split; [reflexivity |].
  fold F. rewrite Hlast.
  apply lseg_app in Hpre as (r & Hpre & (-> & Hz & _)).
  apply lseg_app. exists z. split.
  - apply lseg_insert_notin; assumption.
  - simpl. split; [reflexivity |]. split; [exact Hz |].
    eexists. split; [apply lookup_insert_eq | reflexivity].
Qed.

(** C2, amended. For every [deallocate p n] with [n <= MAX_BYTES] that makes
    the length counter of the class exceed 64 ([N] is the counter after the
    push, which is what the code tests; it is the length of the list when
    counter and list are in step), while the list holds more than
    [floor(N/2)] blocks: the operation sets the length counter of the
    thread-local list to [floor(N/2)] (at least 1) and ships the blocks that
    follow the first [floor(N/2)], at most [N - floor(N/2)] of them and
    exactly [N - floor(N/2)] when [N] is the length of the list, as a single
    linked chain to CentralCache, in front of the blocks the central list of
    the class held. *)
Theorem deallocate_spill (w : World) (p n : Z) (bs : list Z) :
  0 ≤ n ≤ MAX_BYTES → p ≠ 0 → p ∉ bs →
  lseg (mem w) (default 0 (_freeList w !! SizeClass.getIndex n)) bs 0 →
  let N := wrap (default 0 (_freeListSize w !! SizeClass.getIndex n) + 1) in
  let L := Z.of_nat (length (p :: bs)) in
  let shipped := take (Z.to_nat (N - N / 2)) (drop (Z.to_nat (N / 2)) (p :: bs)) in
  64 < N → N / 2 < L →
  ∃ w', ThreadCache.deallocate p n w = Some ((), w')
    ∧ default 0 (_freeListSize w' !! SizeClass.getIndex n) = N / 2
    ∧ 1 ≤ N / 2
    ∧ Z.of_nat (length shipped) = Z.min (N - N / 2) (L - N / 2)
    ∧ (N = L → shipped = drop (Z.to_nat (N / 2)) (p :: bs))
    ∧ lseg (mem w') (default 0 (centralFreeList_ w' !! SizeClass.getIndex n))
           shipped (default 0 (centralFreeList_ w !! SizeClass.getIndex n)).
Proof.
  intros Hn Hp Hpbs Hseg N L shipped HN HL.
  set (i := SizeClass.getIndex n) in *.
  assert (HNmax : 0 ≤ N < SIZE_T_MOD).
  { unfold N, wrap. apply Z.mod_pos_bound. unfold SIZE_T_MOD, SIZE_T_BITS. lia. }
  (* the push makes the counter [N] and the call spills *)
  assert (Hspill : spills w n) by exact HN.
  rewrite (deallocate_above_threshold w p n Hn Hp Hspill).
  assert (Hcount : default 0 (_freeListSize (pushed p n w) !! i) = N).
  { unfold pushed. simpl. fold i. rewrite lookup_insert_eq. reflexivity. }
  assert (HsegL : lseg (mem (pushed p n w)) p (p :: bs) 0).
  { unfold pushed. simpl. fold i. split; [reflexivity |]. split; [exact Hp |].
    eexists. split; [apply lookup_insert_eq |].
    apply lseg_insert_notin; assumption. }
  assert (HLdef : L = Z.of_nat (length (p :: bs))) by reflexivity.
  assert (Hshipped : shipped
                     = take (Z.to_nat (N - N / 2)) (drop (Z.to_nat (N / 2)) (p :: bs)))
    by reflexivity.
  clearbody N L shipped. clear Hspill.
  remember (p :: bs) as l eqn:Hl.
  remember (Z.to_nat (N / 2)) as R eqn:HRdef.
  assert (HR : 1 ≤ N / 2) by (apply Z.div_le_lower_bound; lia).
  assert (HRN : N / 2 < N) by (apply Z.div_lt; lia).
  (* the list after the push, cut behind its first [N/2] blocks *)
  assert (HRlen : (1 ≤ R < length l)%nat) by lia.
  destruct (lookup_lt_is_Some_2 l (R - 1)%nat ltac:(lia)) as [x Hx].
  assert (Hcut : l = take (R - 1) l ++ x :: drop R l).
  { rewrite <- (take_drop (R - 1) l) at 1. f_equal.
    rewrite (drop_S l x (R - 1) Hx). f_equal. f_equal. lia. }
  assert (Hne : drop R l ≠ []).
  { intros Hnil. apply (f_equal length) in Hnil. rewrite length_drop in Hnil.
    simpl in Hnil. lia. }
  assert (Hl1 : length (take (R - 1) l) = (R - 1)%nat) by (rewrite length_take; lia).
  destruct (returnThreadCache_cuts (pushed p n w) p n x N (take (R - 1) l) (drop R l) Hn)
    as (w' & Hret & Hsize & Hchain).
  - rewrite <- Hcut. exact HsegL.
  - exact Hne.
  - exact Hcount.
  - lia.
  - rewrite Hl1. lia.
  - fold i in Hsize, Hchain.
    exists w'. split; [exact Hret |]. split; [exact Hsize |]. split; [exact HR |].
    split; [| split].
    + rewrite Hshipped, length_take, length_drop. lia.
    + intros HNL. rewrite Hshipped. apply take_ge. rewrite length_drop. lia.
    + rewrite Hshipped. exact Hchain.
Qed.

Lemma lsegb_lseg (m : gmap Z Z) (l : list Z) (p q : Z) :
  lsegb m p l q = true → lseg m p l q.
Proof.
  revert p. induction l as [| x l IH]; intros p; simpl.
  - apply Z.eqb_eq.
  - intros H. apply andb_prop in H as [H Hrest]. apply andb_prop in H as [Hp Hx].
    apply Z.eqb_eq in Hp. apply negb_true_iff, Z.eqb_neq in Hx.
    destruct (m !! x) as [nx |]; [| discriminate].
    split; [exact Hp |]. split; [exact Hx |]. exists nx. split; [reflexivity |].
    apply IH. exact Hrest.
Qed.

(** The state of the witness below is one the code reaches: an [allocate]
    on the empty list of the class makes the counter wrap to [2^64 - 1], and
    the 65 calls of [deallocate] that follow leave it at 64 with 65 blocks on
    the list, none of them spilling. *)
Lemma drift_world_reached :
  miss_then_free 16 drift_blocks empty_world = Some ((), drift_world).
Proof. vm_compute. reflexivity. Qed.

Lemma deallocate_spill_witness :
  let N := wrap (default 0 (_freeListSize drift_world !! SizeClass.getIndex 16) + 1) in
  let L := Z.of_nat (length (8192 :: drift_blocks)) in
  let shipped := take (Z.to_nat (N - N / 2)) (drop (Z.to_nat (N / 2)) (8192 :: drift_blocks)) in
  ∃ w', ThreadCache.deallocate 8192 16 drift_world = Some ((), w')
    ∧ default 0 (_freeListSize w' !! SizeClass.getIndex 16) = N / 2
    ∧ 1 ≤ N / 2
    ∧ Z.of_nat (length shipped) = Z.min (N - N / 2) (L - N / 2)
    ∧ (N = L → shipped = drop (Z.to_nat (N / 2)) (8192 :: drift_blocks))
    ∧ lseg (mem w') (default 0 (centralFreeList_ w' !! SizeClass.getIndex 16))
           shipped (default 0 (centralFreeList_ drift_world !! SizeClass.getIndex 16)).
Proof.
  apply (deallocate_spill drift_world 8192 16 drift_blocks).
  - unfold MAX_BYTES. lia.
  - lia.
  - apply (bool_decide_unpack _). vm_compute. exact I.
  - apply lsegb_lseg. vm_compute. reflexivity.
  - vm_compute. reflexivity.
  - vm_compute. reflexivity.
Defined.

(** C2, as stated, fails on a class list of 64 blocks that receives a 65th:
    the counter becomes [floor(65/2) = 32], not [ceil(65/2) = 33], and the
    chain handed to CentralCache has 33 blocks, not [65 - 33 = 32]. *)
Lemma spill_retains_floor_not_ceil :
  default 0 (_freeListSize spill_world !! SizeClass.getIndex 16) + 1 = 65
  ∧ ¬ spill_counter_is_ceil spill_world 8192 16
  ∧ ¬ spill_ships_rest spill_world 8192 16.
Proof.
  assert (Hobs : (λ r, (default 0 (_freeListSize r.2 !! 1),
                        lsegb (mem r.2) (default 0 (centralFreeList_ r.2 !! 1))
                              shipped_blocks 0))
                   <$> ThreadCache.deallocate 8192 16 spill_world
                 = Some (32, true)) by (vm_compute; reflexivity).
  destruct (ThreadCache.deallocate 8192 16 spill_world) as [[[] w'] |] eqn:Hrun;
    [| discriminate Hobs].
  change (Some (default 0 (_freeListSize w' !! 1),
                lsegb (mem w') (default 0 (centralFreeList_ w' !! 1)) shipped_blocks 0)
          = Some (32, true)) in Hobs.
  assert (Hcount : default 0 (_freeListSize w' !! 1) = 32) by congruence.
  assert (Hchain : lsegb (mem w') (default 0 (centralFreeList_ w' !! 1)) shipped_blocks 0
                   = true) by congruence.
  clear Hobs.
  split; [vm_compute; reflexivity |]. split.
  - intros Hclaim. specialize (Hclaim w' Hrun).
    change (SizeClass.getIndex 16) with 1 in Hclaim. rewrite Hcount in Hclaim.
    vm_compute in Hclaim. discriminate Hclaim.
  - intros Hclaim. specialize (Hclaim w' Hrun shipped_blocks).
    change (SizeClass.getIndex 16) with 1 in Hclaim.
    specialize (Hclaim (lsegb_lseg _ _ _ _ Hchain)).
    vm_compute in Hclaim. discriminate Hclaim.
Qed.

(** After that spill the head of the thread's list is the very chain that
    was handed to CentralCache, and the first 32 blocks, [8192] among them,
    are on neither list. *)
Lemma spill_head_is_shipped_chain :
  (λ r, (default 0 (_freeList r.2 !! 1), default 0 (centralFreeList_ r.2 !! 1)))
    <$> ThreadCache.deallocate 8192 16 spill_world
  = Some (hd 0 shipped_blocks, hd 0 shipped_blocks)
  ∧ 8192 ∉ shipped_blocks.
Proof.
  split; [vm_compute; reflexivity |].
  apply (bool_decide_unpack _). vm_compute. exact I.
Qed.

(** * Further properties of SizeClass *)

(** The block of the class of [n] holds [n] bytes and wastes less than
    [ALIGNMENT]: for [1 <= n <= MAX_BYTES],
    [n <= (getIndex n + 1) * ALIGNMENT < n + ALIGNMENT], and the block is no
    larger than [MAX_BYTES]. *)
Theorem class_block_fits (n : Z) :
  1 ≤ n ≤ MAX_BYTES →
  n ≤ (SizeClass.getIndex n + 1) * ALIGNMENT < Z.max n ALIGNMENT + ALIGNMENT
  ∧ (SizeClass.getIndex n + 1) * ALIGNMENT ≤ MAX_BYTES.
Proof.
  intros Hn.
  rewrite getIndex_div
    by (unfold MAX_BYTES, SIZE_T_MOD, SIZE_T_BITS, ALIGNMENT in *; lia).
  unfold MAX_BYTES, ALIGNMENT in *.
  pose proof (Z.div_mod (Z.max n 8 + 7) 8 ltac:(lia)) as Hdm.
  pose proof (Z.mod_pos_bound (Z.max n 8 + 7) 8 ltac:(lia)) as Hmod.
  assert ((Z.max n 8 + 7) / 8 < 32769) by (apply Z.div_lt_upper_bound; lia).
  lia.
Qed.

Lemma class_block_fits_witness :
  13 ≤ (SizeClass.getIndex 13 + 1) * ALIGNMENT < Z.max 13 ALIGNMENT + ALIGNMENT
  ∧ (SizeClass.getIndex 13 + 1) * ALIGNMENT ≤ MAX_BYTES.
Proof. apply (class_block_fits 13). unfold MAX_BYTES. lia. Defined.

(** [roundUp] never shrinks its argument, adds less than [ALIGNMENT], and is
    idempotent, as long as [n + ALIGNMENT - 1] does not wrap. *)
Theorem roundUp_idempotent (n : Z) :
  0 ≤ n ≤ SIZE_T_MOD - ALIGNMENT →
  n ≤ SizeClass.roundUp n < n + ALIGNMENT
  ∧ SizeClass.roundUp (SizeClass.roundUp n) = SizeClass.roundUp n.
Proof.
  intros Hn. rewrite (roundUp_div n Hn).
  pose proof (Z.div_mod (n + 7) 8 ltac:(lia)) as Hdm.
  pose proof (Z.mod_pos_bound (n + 7) 8 ltac:(lia)) as Hmod.
  assert (Hmul : (ALIGNMENT * ((n + 7) / ALIGNMENT)) mod 8 = 0).
  { unfold ALIGNMENT. rewrite Z.mul_comm. apply Z.mod_mul. lia. }
  assert (Hr : 0 ≤ ALIGNMENT * ((n + 7) / ALIGNMENT) ≤ SIZE_T_MOD - ALIGNMENT).
  { unfold ALIGNMENT, SIZE_T_MOD, SIZE_T_BITS in *. lia. }
  split; [unfold ALIGNMENT in *; lia |].
  rewrite (roundUp_div _ Hr). unfold ALIGNMENT in *. f_equal.
  symmetry. apply Z.div_unique with (r := 7); lia.
Qed.

Lemma roundUp_idempotent_witness :
  13 ≤ SizeClass.roundUp 13 < 13 + ALIGNMENT
  ∧ SizeClass.roundUp (SizeClass.roundUp 13) = SizeClass.roundUp 13.
Proof.
  apply (roundUp_idempotent 13). unfold SIZE_T_MOD, SIZE_T_BITS, ALIGNMENT. lia.
Defined.

(** Rounding a size up does not change its class: for [1 <= n <= MAX_BYTES],
    [getIndex (roundUp n) = getIndex n]. *)
Theorem getIndex_roundUp (n : Z) :
  1 ≤ n ≤ MAX_BYTES →
  SizeClass.getIndex (SizeClass.roundUp n) = SizeClass.getIndex n.
Proof.
  intros Hn.
  assert (Hr : 0 ≤ n ≤ SIZE_T_MOD - ALIGNMENT)
    by (unfold MAX_BYTES, SIZE_T_MOD, SIZE_T_BITS, ALIGNMENT in *; lia).
  rewrite (roundUp_div n Hr).
  pose proof (Z.div_mod (n + 7) 8 ltac:(lia)) as Hdm.
  pose proof (Z.mod_pos_bound (n + 7) 8 ltac:(lia)) as Hmod.
  assert (Hq : 1 ≤ (n + 7) / 8) by (apply Z.div_le_lower_bound; lia).
  rewrite !getIndex_div
    by (unfold MAX_BYTES, SIZE_T_MOD, SIZE_T_BITS, ALIGNMENT in *; lia).
  unfold ALIGNMENT in *.
  rewrite (Z.max_l (8 * ((n + 7) / 8))) by lia.
  assert (H1 : (8 * ((n + 7) / 8) + 7) / 8 = (n + 7) / 8)
    by (symmetry; apply Z.div_unique with (r := 7); lia).
  assert (H2 : (Z.max n 8 + 7) / 8 = (n + 7) / 8).
  { destruct (Z.le_ge_cases 8 n) as [Hle | Hle].
    - rewrite Z.max_l by lia. reflexivity.
    - rewrite Z.max_r by lia. change ((8 + 7) / 8) with 1.
      apply Z.div_unique with (r := n - 1); lia. }
  rewrite H1, H2. reflexivity.
Qed.

Lemma getIndex_roundUp_witness :
  SizeClass.getIndex (SizeClass.roundUp 13) = SizeClass.getIndex 13.
Proof. apply (getIndex_roundUp 13). unfold MAX_BYTES. lia. Defined.

(** [getIndex] is monotone, and every size up to [ALIGNMENT] is of class 0. *)
Theorem getIndex_monotone (n m : Z) :
  0 ≤ n ≤ m → m ≤ SIZE_T_MOD - ALIGNMENT →
  SizeClass.getIndex n ≤ SizeClass.getIndex m
  ∧ (m ≤ ALIGNMENT → SizeClass.getIndex m = 0).
Proof.
  intros Hnm Hm. rewrite !getIndex_div by lia. unfold ALIGNMENT in *. split.
  - assert ((Z.max n 8 + 7) / 8 ≤ (Z.max m 8 + 7) / 8); [| lia].
    apply Z.div_le_mono; lia.
  - intros Hle. rewrite Z.max_r by lia. reflexivity.
Qed.

Lemma getIndex_monotone_witness :
  SizeClass.getIndex 5 ≤ SizeClass.getIndex 8
  ∧ (8 ≤ ALIGNMENT → SizeClass.getIndex 8 = 0).
Proof.
  apply (getIndex_monotone 5 8); unfold SIZE_T_MOD, SIZE_T_BITS, ALIGNMENT; lia.
Defined.

(** * Further properties of the batch count *)

(** For every non-zero block size [getBatchNum] returns a count between
    [sizeof(1) = 4] and 64. *)
Theorem getBatchNum_bounds (s : Z) :
  0 < s → ∃ b, getBatchNum s = Some b ∧ 4 ≤ b ≤ 64.
Proof.
  intros Hs. unfold getBatchNum, MAX_BATCH_SIZE, SIZEOF_INT.
  destruct (Z.eqb_spec s 0) as [-> | _]; [lia |].
  eexists. split; [reflexivity |].
  repeat (match goal with |- context [?a <=? ?b] => destruct (Z.leb_spec a b) end); lia.
Qed.

Lemma getBatchNum_bounds_witness : ∃ b, getBatchNum 24 = Some b ∧ 4 ≤ b ≤ 64.
Proof. apply (getBatchNum_bounds 24). lia. Defined.

(** Up to 512 bytes a batch is at most 2 KiB: [getBatchNum s * s <= 2048]. *)
Theorem getBatchNum_batch_bytes (s : Z) :
  0 < s ≤ 512 → ∃ b, getBatchNum s = Some b ∧ b * s ≤ 2048.
Proof.
  intros Hs. unfold getBatchNum, MAX_BATCH_SIZE, SIZEOF_INT.
  destruct (Z.eqb_spec s 0) as [-> | _]; [lia |].
  change (4 * 1024) with 4096.
  eexists. split; [reflexivity |].
  repeat (match goal with |- context [?a <=? ?b] => destruct (Z.leb_spec a b) end);
    try lia.
  all: match goal with
       | |- Z.max 4 (Z.min (Z.max 1 (4096 / ?x)) ?c) * ?x ≤ 2048 =>
           assert (Hc : c ≤ 4096 / x) by (apply Z.div_le_lower_bound; lia);
           replace (Z.max 4 (Z.min (Z.max 1 (4096 / x)) c)) with c by lia; lia
       end.
Qed.

Lemma getBatchNum_batch_bytes_witness : ∃ b, getBatchNum 24 = Some b ∧ b * 24 ≤ 2048.
Proof. apply (getBatchNum_batch_bytes 24). lia. Defined.

(** * Further properties of ThreadCache *)

(** ** Inversion of the primitives *)

Lemma load_Some (p v : Z) (w w' : World) :
  load p w = Some (v, w') → w' = w ∧ p ≠ 0 ∧ mem w !! p = Some v.
Proof.
  unfold load. destruct (Z.eqb_spec p 0); [discriminate |].
  destruct (mem w !! p); [| discriminate]. intros [= -> ->]. auto.
Qed.

Lemma store_Some (p v : Z) (w w' : World) (u : ()) :
  store p v w = Some (u, w') → p ≠ 0 ∧ w' = with_mem <[p := v]> w.
Proof.
  unfold store. destruct (Z.eqb_spec p 0); [discriminate |]. intros [= _ <-]. auto.
Qed.

Lemma slot_Some (a : gmap Z Z) (i v : Z) :
  slot a i = Some v → 0 ≤ i < FREE_LIST_SIZE ∧ v = default 0 (a !! i).
Proof. unfold slot. case_bool_decide; [| discriminate]. intros [= <-]. auto. Qed.

Lemma freeList_at_Some (i v : Z) (w w' : World) :
  freeList_at i w = Some (v, w') →
  w' = w ∧ 0 ≤ i < FREE_LIST_SIZE ∧ v = default 0 (_freeList w !! i).
Proof.
  unfold freeList_at. destruct (slot (_freeList w) i) as [v0 |] eqn:Hs; [| discriminate].
  intros [= <- <-]. apply slot_Some in Hs. tauto.
Qed.

Lemma freeListSize_at_Some (i v : Z) (w w' : World) :
  freeListSize_at i w = Some (v, w') →
  w' = w ∧ 0 ≤ i < FREE_LIST_SIZE ∧ v = default 0 (_freeListSize w !! i).
Proof.
  unfold freeListSize_at.
  destruct (slot (_freeListSize w) i) as [v0 |] eqn:Hs; [| discriminate].
  intros [= <- <-]. apply slot_Some in Hs. tauto.
Qed.

Lemma central_at_Some (i v : Z) (w w' : World) :
  central_at i w = Some (v, w') →
  w' = w ∧ 0 ≤ i < FREE_LIST_SIZE ∧ v = default 0 (centralFreeList_ w !! i).
Proof.
  unfold central_at.
  destruct (slot (centralFreeList_ w) i) as [v0 |] eqn:Hs; [| discriminate].
  intros [= <- <-]. apply slot_Some in Hs. tauto.
Qed.

Lemma set_freeList_Some (i v : Z) (w w' : World) (u : ()) :
  set_freeList i v w = Some (u, w') →
  0 ≤ i < FREE_LIST_SIZE ∧ w' = with_freeList <[i := v]> w.
Proof.
  unfold set_freeList. case_bool_decide; [| discriminate]. intros [= _ <-]. auto.
Qed.

Lemma set_freeListSize_Some (i v : Z) (w w' : World) (u : ()) :
  set_freeListSize i v w = Some (u, w') →
  0 ≤ i < FREE_LIST_SIZE ∧ w' = with_freeListSize <[i := v]> w.
Proof.
  unfold set_freeListSize. case_bool_decide; [| discriminate]. intros [= _ <-]. auto.
Qed.

Lemma set_central_Some (i v : Z) (w w' : World) (u : ()) :
  set_central i v w = Some (u, w') →
  0 ≤ i < FREE_LIST_SIZE ∧ w' = with_central <[i := v]> w.
Proof.
  unfold set_central. case_bool_decide; [| discriminate]. intros [= _ <-]. auto.
Qed.

(** The walks read memory and change nothing. *)
Lemma split_walk_state (fuel : nat) (i p F N : Z) (w w' : World) (r : Z * Z) :
  split_walk fuel i p F N w = Some (r, w') → w' = w.
Proof.
  revert i p w. induction fuel as [| fuel IH]; intros i p w; simpl.
  - intros [= _ <-]. reflexivity.
  - intros H. apply bind_Some in H as (nxt & w1 & Hl & H).
    apply load_Some in Hl as (-> & _).
    destruct (nxt =? 0); [injection H as _ <-; reflexivity | exact (IH _ _ _ H)].
Qed.

Lemma tail_walk_state (fuel : nat) (p r : Z) (w w' : World) :
  tail_walk fuel p w = Some (r, w') → w' = w.
Proof.
  revert p w. induction fuel as [| fuel IH]; intros p w; simpl; intros H;
    apply bind_Some in H as (nxt & w1 & Hl & H); apply load_Some in Hl as (-> & _).
  - injection H as _ <-. reflexivity.
  - destruct (nxt =? 0); [injection H as _ <-; reflexivity | exact (IH _ _ H)].
Qed.

Lemma take_walk_state (fuel : nat) (prev cur : Z) (w w' : World) (r : Z * Z) :
  take_walk fuel prev cur w = Some (r, w') → w' = w.
Proof.
  revert prev cur w. induction fuel as [| fuel IH]; intros prev cur w; simpl.
  - intros [= _ <-]. reflexivity.
  - destruct (cur =? 0); [intros [= _ <-]; reflexivity |].
    intros H. apply bind_Some in H as (nxt & w1 & Hl & H).
    apply load_Some in Hl as (-> & _). exact (IH _ _ _ H).
Qed.

(** ** Locality *)

Lemma class_local_refl (i : Z) (w : World) : class_local i w w.
Proof. unfold class_local. repeat split; reflexivity. Qed.

Lemma class_local_trans (i : Z) (w1 w2 w3 : World) :
  class_local i w1 w2 → class_local i w2 w3 → class_local i w1 w3.
Proof.
  intros (Ha & Hb & Hc & Hd) (Ha' & Hb' & Hc' & Hd').
  unfold class_local. rewrite Ha', Hb', Hc'. repeat split; try assumption.
  all: destruct (Hd j H) as (? & ? & ?); destruct (Hd' j H) as (? & ? & ?); congruence.
Qed.

Lemma class_local_mem (i : Z) (f : gmap Z Z → gmap Z Z) (w : World) :
  class_local i w (with_mem f w).
Proof. unfold class_local. simpl. repeat split; reflexivity. Qed.

Lemma class_local_freeList (i v : Z) (w : World) :
  class_local i w (with_freeList <[i := v]> w).
Proof.
  unfold class_local. simpl. repeat split; try reflexivity.
  apply lookup_insert_ne. congruence.
Qed.

Lemma class_local_freeListSize (i v : Z) (w : World) :
  class_local i w (with_freeListSize <[i := v]> w).
Proof.
  unfold class_local. simpl. repeat split; try reflexivity.
  apply lookup_insert_ne. congruence.
Qed.

Lemma class_local_central (i v : Z) (w : World) :
  class_local i w (with_central <[i := v]> w).
Proof.
  unfold class_local. simpl. repeat split; try reflexivity.
  apply lookup_insert_ne. congruence.
Qed.

Lemma returnRange_local (ptr size i : Z) (w w' : World) (u : ()) :
  CentralCache.returnRange ptr size i w = Some (u, w') → class_local i w w'.
Proof.
  unfold CentralCache.returnRange.
  destruct ((ptr =? 0) || (FREE_LIST_SIZE <=? i)).
  - intros [= _ <-]. apply class_local_refl.
  - intros H. apply bind_Some in H as (tl & w1 & Hw & H).
    apply tail_walk_state in Hw as ->.
    apply bind_Some in H as (cur & w2 & Hc & H).
    apply central_at_Some in Hc as (-> & _ & _).
    apply bind_Some in H as (u1 & w3 & Hst & H).
    apply store_Some in Hst as (_ & ->).
    apply set_central_Some in H as (_ & ->).
    eapply class_local_trans; [apply class_local_mem | apply class_local_central].
Qed.

Lemma returnThreadCache_local (ptr size : Z) (w w' : World) (u : ()) :
  ThreadCache.returnThreadCache ptr size w = Some (u, w') →
  class_local (SizeClass.getIndex size) w w'.
Proof.
  unfold ThreadCache.returnThreadCache. intros H.
  apply bind_Some in H as (batchNum & w1 & Hb & H).
  apply freeListSize_at_Some in Hb as (-> & _ & _).
  destruct (batchNum <=? 1); [injection H as _ <-; apply class_local_refl |].
  apply bind_Some in H as ([splitNode F] & w2 & Hw & H).
  apply split_walk_state in Hw as ->.
  destruct (splitNode =? 0); [injection H as _ <-; apply class_local_refl |].
  apply bind_Some in H as (nextNode & w3 & Hl & H).
  apply load_Some in Hl as (-> & _).
  apply bind_Some in H as (u1 & w4 & Hst & H).
  apply store_Some in Hst as (_ & ->).
  apply bind_Some in H as (u2 & w5 & Hs1 & H).
  apply set_freeList_Some in Hs1 as (_ & ->).
  apply bind_Some in H as (u3 & w6 & Hs2 & H).
  apply set_freeListSize_Some in Hs2 as (_ & ->).
  eapply class_local_trans; [apply class_local_mem |].
  eapply class_local_trans; [apply class_local_freeList |].
  eapply class_local_trans; [apply class_local_freeListSize |].
  destruct ((0 <? Z.max (batchNum / 2) 1) && negb (nextNode =? 0)).
  - exact (returnRange_local _ _ _ _ _ _ H).
  - injection H as _ <-. apply class_local_refl.
Qed.

(** [getIndex] does not see the replacement of a zero size by [ALIGNMENT]. *)
Lemma getIndex_zero_size (n : Z) :
  SizeClass.getIndex (if n =? 0 then ALIGNMENT else n) = SizeClass.getIndex n.
Proof. destruct (Z.eqb_spec n 0) as [-> | _]; reflexivity. Qed.

(** A request above [MAX_BYTES] bypasses the pool in both directions:
    [allocate] returns through its [malloc] branch with the requested size,
    [deallocate] returns without pushing the block, and both leave every
    part of the state of the pool as it was. *)
Theorem large_request_bypasses_pool (w : World) (p n : Z) :
  MAX_BYTES < n →
  ThreadCache.allocate n w = Some (FromMalloc n, w)
  ∧ ThreadCache.deallocate p n w = Some ((), w).
Proof.
  intros Hn. unfold ThreadCache.allocate, ThreadCache.deallocate.
  destruct (Z.eqb_spec n 0) as [-> | _]; [unfold MAX_BYTES in Hn; lia |].
  destruct (Z.ltb_spec MAX_BYTES n) as [_ | Hle]; [| lia].
  split; reflexivity.
Qed.

Lemma large_request_bypasses_pool_witness :
  ThreadCache.allocate 300000 empty_world = Some (FromMalloc 300000, empty_world)
  ∧ ThreadCache.deallocate 4096 300000 empty_world = Some ((), empty_world).
Proof.
  apply (large_request_bypasses_pool empty_world 4096 300000). unfold MAX_BYTES. lia.
Defined.

(** [allocate] on a class whose list is the chain [x :: l] returns [x] and
    leaves the chain [l] as the list of the class; memory is not written and
    the counter is decremented. *)
Theorem allocate_pops_head (w : World) (n x : Z) (l : list Z) :
  0 ≤ n ≤ MAX_BYTES →
  lseg (mem w) (default 0 (_freeList w !! SizeClass.getIndex n)) (x :: l) 0 →
  ∃ w', ThreadCache.allocate n w = Some (FromPool x, w')
    ∧ mem w' = mem w
    ∧ lseg (mem w') (default 0 (_freeList w' !! SizeClass.getIndex n)) l 0
    ∧ default 0 (_freeListSize w' !! SizeClass.getIndex n)
      = wrap (default 0 (_freeListSize w !! SizeClass.getIndex n) - 1).
Proof.
  intros Hn (Hhead & Hx & nx & Hnx & Hl).
  pose proof (getIndex_range n Hn) as Hi.
  unfold ThreadCache.allocate. rewrite getIndex_zero_size.
  assert (Hsmall : (MAX_BYTES <? (if n =? 0 then ALIGNMENT else n)) = false).
  { apply Z.ltb_ge. destruct (n =? 0); [unfold ALIGNMENT, MAX_BYTES |]; lia. }
  rewrite Hsmall. apply Z.eqb_neq in Hx as Hx'.
  monad_unfold. unfold freeListSize_at, set_freeListSize, freeList_at, load, set_freeList.
  monad_unfold.
  rewrite slot_in_range by exact Hi. simpl.
  rewrite bool_decide_eq_true_2 by exact Hi. simpl.
  rewrite slot_in_range by exact Hi. simpl.
  rewrite Hhead, Hx'. simpl. rewrite Hnx.
  eexists. split; [reflexivity |]. simpl.
  rewrite !lookup_insert_eq. simpl. auto.
Qed.

Lemma allocate_pops_head_witness :
  ∃ w', ThreadCache.allocate 16 two_block_world = Some (FromPool 4096, w')
    ∧ mem w' = mem two_block_world
    ∧ lseg (mem w') (default 0 (_freeList w' !! SizeClass.getIndex 16)) [8192] 0
    ∧ default 0 (_freeListSize w' !! SizeClass.getIndex 16)
      = wrap (default 0 (_freeListSize two_block_world !! SizeClass.getIndex 16) - 1).
Proof.
  apply (allocate_pops_head two_block_world 16 4096 [8192]).
  - unfold MAX_BYTES. lia.
  - apply lsegb_lseg. vm_compute. reflexivity.
Defined.

(** A push that does not spill followed by a pop of the same class gives the
    block back and restores the head and the counter of the class; the only
    trace is the link written into the block. *)
Theorem deallocate_allocate_round_trip (w : World) (p n m : Z) :
  0 ≤ n ≤ MAX_BYTES → 0 ≤ m ≤ MAX_BYTES →
  SizeClass.getIndex m = SizeClass.getIndex n →
  p ≠ 0 → ¬ spills w n →
  0 ≤ default 0 (_freeListSize w !! SizeClass.getIndex n) < SIZE_T_MOD →
  ∃ w1 w2,
    ThreadCache.deallocate p n w = Some ((), w1)
    ∧ ThreadCache.allocate m w1 = Some (FromPool p, w2)
    ∧ default 0 (_freeList w2 !! SizeClass.getIndex n)
      = default 0 (_freeList w !! SizeClass.getIndex n)
    ∧ default 0 (_freeListSize w2 !! SizeClass.getIndex n)
      = default 0 (_freeListSize w !! SizeClass.getIndex n)
    ∧ mem w2 = <[p := default 0 (_freeList w !! SizeClass.getIndex n)]> (mem w).
Proof.
  intros Hn Hm Hidx Hp Hns Hc.
  exists (pushed p n w). rewrite (deallocate_no_spill w p n Hn Hp Hns).
  unfold ThreadCache.allocate. rewrite getIndex_zero_size, Hidx.
  assert (Hsmall : (MAX_BYTES <? (if m =? 0 then ALIGNMENT else m)) = false).
  { apply Z.ltb_ge. destruct (m =? 0); [unfold ALIGNMENT, MAX_BYTES |]; lia. }
  rewrite Hsmall.
  pose proof (getIndex_range n Hn) as Hi.
  apply Z.eqb_neq in Hp as Hp'.
  monad_unfold. unfold freeListSize_at, set_freeListSize, freeList_at, load, set_freeList.
  monad_unfold.
  rewrite slot_in_range by exact Hi. simpl.
  rewrite bool_decide_eq_true_2 by exact Hi. simpl.
  rewrite slot_in_range by exact Hi. simpl.
  rewrite lookup_insert_eq. simpl. rewrite Hp'.
  unfold pushed at 1 3. simpl.
  rewrite lookup_insert_eq.
  eexists. split; [reflexivity |]. split; [reflexivity |]. simpl.
  rewrite !lookup_insert_eq. simpl.
  split; [reflexivity |]. split; [| reflexivity].
  set (c := default 0 (_freeListSize w !! SizeClass.getIndex n)) in *.
  unfold wrap. unfold SIZE_T_MOD, SIZE_T_BITS in *.
  destruct (Z.eq_dec c (2 ^ 64 - 1)) as [-> | Hne]; [reflexivity |].
  rewrite (Z.mod_small (c + 1)) by lia.
  replace (c + 1 - 1) with c by lia. apply Z.mod_small. lia.
Qed.

Lemma deallocate_allocate_round_trip_witness :
  ∃ w1 w2,
    ThreadCache.deallocate 12288 16 two_block_world = Some ((), w1)
    ∧ ThreadCache.allocate 16 w1 = Some (FromPool 12288, w2)
    ∧ default 0 (_freeList w2 !! SizeClass.getIndex 16)
      = default 0 (_freeList two_block_world !! SizeClass.getIndex 16)
    ∧ default 0 (_freeListSize w2 !! SizeClass.getIndex 16)
      = default 0 (_freeListSize two_block_world !! SizeClass.getIndex 16)
    ∧ mem w2 = <[12288 := default 0 (_freeList two_block_world !! SizeClass.getIndex 16)]>
                 (mem two_block_world).
Proof.
  apply (deallocate_allocate_round_trip two_block_world 12288 16 16).
  - unfold MAX_BYTES. lia.
  - unfold MAX_BYTES. lia.
  - reflexivity.
  - lia.
  - unfold spills. vm_compute. intros H. discriminate H.
  - vm_compute. split; [intros H; discriminate H | reflexivity].
Defined.

(** Whatever [allocate] returns, it has written no block memory, has not
    touched CentralCache or PageCache, and has changed no slot of the thread's
    arrays but those of the class of the request. *)
Theorem allocate_touches_only_its_class (w w' : World) (n : Z) (r : AllocResult) :
  ThreadCache.allocate n w = Some (r, w') →
  class_local (SizeClass.getIndex n) w w'
  ∧ mem w' = mem w ∧ centralFreeList_ w' = centralFreeList_ w.
Proof.
  unfold ThreadCache.allocate. rewrite getIndex_zero_size.
  destruct (MAX_BYTES <? (if n =? 0 then ALIGNMENT else n)).
  - intros [= _ <-]. split; [apply class_local_refl | auto].
  - intros H.
    apply bind_Some in H as (c & w1 & Hc & H).
    apply freeListSize_at_Some in Hc as (-> & _ & _).
    apply bind_Some in H as (u & w2 & Hs & H).
    apply set_freeListSize_Some in Hs as (_ & ->).
    apply bind_Some in H as (ptr & w3 & Hf & H).
    apply freeList_at_Some in Hf as (-> & _ & _).
    destruct (ptr =? 0).
    + injection H as _ <-. split; [apply class_local_freeListSize | auto].
    + apply bind_Some in H as (nxt & w4 & Hl & H).
      apply load_Some in Hl as (-> & _).
      apply bind_Some in H as (u1 & w5 & Hs & H).
      apply set_freeList_Some in Hs as (_ & ->).
      injection H as _ <-. split; [| auto].
      eapply class_local_trans; [apply class_local_freeListSize | apply class_local_freeList].
Qed.

Lemma allocate_touches_only_its_class_witness :
  class_local (SizeClass.getIndex 16) two_block_world
    (with_freeList <[1 := 8192]> (with_freeListSize <[1 := 1]> two_block_world))
  ∧ mem (with_freeList <[1 := 8192]> (with_freeListSize <[1 := 1]> two_block_world))
    = mem two_block_world
  ∧ centralFreeList_
      (with_freeList <[1 := 8192]> (with_freeListSize <[1 := 1]> two_block_world))
    = centralFreeList_ two_block_world.
Proof.
  apply (allocate_touches_only_its_class two_block_world _ 16 (FromPool 4096)).
  vm_compute. reflexivity.
Defined.

(** Whatever path [deallocate] takes, the spill to CentralCache included, it
    never touches the PageCache and changes no slot of the thread's or the
    central arrays but those of the class of the freed size. *)
Theorem deallocate_touches_only_its_class (w w' : World) (p n : Z) :
  ThreadCache.deallocate p n w = Some ((), w') →
  class_local (SizeClass.getIndex n) w w'.
Proof.
  unfold ThreadCache.deallocate.
  destruct (MAX_BYTES <? n); [intros [= <-]; apply class_local_refl |].
  intros H.
  apply bind_Some in H as (head & w1 & Hf & H).
  apply freeList_at_Some in Hf as (-> & _ & _).
  apply bind_Some in H as (u & w2 & Hst & H).
  apply store_Some in Hst as (_ & ->).
  apply bind_Some in H as (u1 & w3 & Hs & H).
  apply set_freeList_Some in Hs as (_ & ->).
  apply bind_Some in H as (c & w4 & Hc & H).
  apply freeListSize_at_Some in Hc as (-> & _ & _).
  apply bind_Some in H as (u2 & w5 & Hs & H).
  apply set_freeListSize_Some in Hs as (_ & ->).
  apply bind_Some in H as (spill & w6 & Hsp & H).
  unfold ThreadCache.shuoReturnThreadCache in Hsp.
  apply bind_Some in Hsp as (c' & w7 & Hc' & Hsp).
  apply freeListSize_at_Some in Hc' as (-> & _ & _).
  injection Hsp as _ <-.
  eapply class_local_trans; [apply class_local_mem |].
  eapply class_local_trans; [apply class_local_freeList |].
  eapply class_local_trans; [apply class_local_freeListSize |].
  destruct spill.
  - exact (returnThreadCache_local _ _ _ _ _ H).
  - injection H as <-. apply class_local_refl.
Qed.

Lemma deallocate_touches_only_its_class_witness :
  class_local (SizeClass.getIndex 16) two_block_world (pushed 12288 16 two_block_world).
Proof.
  apply (deallocate_touches_only_its_class two_block_world _ 12288 16).
  vm_compute. reflexivity.
Defined.

(** * Further properties of CentralCache *)

Lemma lseg_hd (m : gmap Z Z) (p : Z) (l : list Z) :
  lseg m p l 0 → p = hd 0 l.
Proof. destruct l; simpl; [auto | intros (-> & _); reflexivity]. Qed.

Lemma lseg_nonzero (m : gmap Z Z) (p q y : Z) (l : list Z) :
  lseg m p l q → y ∈ l → y ≠ 0.
Proof.
  revert p. induction l as [| x l IH]; intros p; simpl; [intros _ Hin; inversion Hin |].
  intros (-> & Hx & n & _ & Hl) Hin.
  apply elem_of_cons in Hin as [-> | Hin]; [exact Hx | exact (IH _ Hl Hin)].
Qed.

Lemma last_cons_default (x d : Z) (l : list Z) :
  List.last (x :: l) d = List.last l x.
Proof.
  revert x d. induction l as [| y l IH]; intros x d; [reflexivity |].
  change (List.last (y :: l) d = List.last (y :: l) x). rewrite !IH. reflexivity.
Qed.

Lemma last_elem_of (l : list Z) (d : Z) : l ≠ [] → List.last l d ∈ l.
Proof.
  intros Hne. rewrite (app_removelast_last d Hne) at 2.
  apply elem_of_app. right. left.
Qed.

(** The walk of [fetchRange] over a null-terminated chain: after at most
    [fuel] blocks it stands behind the last block taken. *)
Lemma take_walk_lseg (w : World) (l : list Z) (fuel : nat) (prev cur : Z) :
  lseg (mem w) cur l 0 →
  take_walk fuel prev cur w
  = Some ((List.last (take fuel l) prev, hd 0 (drop fuel l)), w).
Proof.
  revert l prev cur. induction fuel as [| fuel IH]; intros l prev cur Hseg.
  - simpl. rewrite (lseg_hd _ _ _ Hseg). rewrite drop_0. reflexivity.
  - destruct l as [| x l]; simpl in Hseg.
    + subst cur. reflexivity.
    + destruct Hseg as (-> & Hx & n & Hn & Hl).
      simpl take_walk. apply Z.eqb_neq in Hx. rewrite Hx.
      monad_unfold. unfold load. rewrite Hx, Hn.
      rewrite (IH l x n Hl). simpl take. rewrite last_cons_default. reflexivity.
Qed.

(** [fetchRange] on a class whose central list is the chain [l]: the first
    [batchNum] blocks (all of them when the list is shorter) are cut off as
    a null-terminated chain and returned, the rest stays the central list. *)
Lemma fetchRange_detach (mmap : Z → option Z) (w : World) (index b : Z) (l : list Z) :
  0 ≤ index < FREE_LIST_SIZE → 1 ≤ b → l ≠ [] →
  lseg (mem w) (default 0 (centralFreeList_ w !! index)) l 0 →
  let w' := with_central <[index := hd 0 (drop (Z.to_nat b) l)]>
              (with_mem <[List.last (take (Z.to_nat b) l) 0 := 0]> w) in
  CentralCache.fetchRange mmap index b w = Some (hd 0 l, w')
  ∧ lseg (mem w') (hd 0 l) (take (Z.to_nat b) l) 0
  ∧ lseg (mem w') (default 0 (centralFreeList_ w' !! index)) (drop (Z.to_nat b) l) 0.
Proof.
  intros Hi Hb Hne Hseg. simpl.
  pose proof (lseg_NoDup _ _ _ Hseg) as Hnd.
  pose proof (lseg_hd _ _ _ Hseg) as Hhd.
  set (n := Z.to_nat b) in *.
  assert (Hn : (1 ≤ n)%nat) by (unfold n; lia).
  assert (Htake : take n l ≠ []).
  { destruct l; [contradiction |]. destruct n; [lia | discriminate]. }
  set (z := List.last (take n l) 0).
  assert (Hzin : z ∈ take n l) by (apply last_elem_of; exact Htake).
  assert (Hz : z ≠ 0).
  { apply (lseg_nonzero _ _ _ z _ Hseg). rewrite <- (take_drop n l).
    apply elem_of_app. left. exact Hzin. }
  assert (Hx : hd 0 l ≠ 0).
  { destruct l as [| x l']; [contradiction |]. simpl.
    apply (lseg_nonzero _ _ _ x _ Hseg). left. }
  (* the chain, cut behind [z] *)
  pose proof (app_removelast_last 0 Htake) as Hcut. fold z in Hcut.
  pose proof Hseg as Hseg0.
  rewrite <- (take_drop n l) in Hseg, Hnd.
  apply lseg_app in Hseg as (r & Htk & Hdr).
  pose proof (lseg_hd _ _ _ Hdr) as Hr.
  rewrite Hcut in Htk, Hnd.
  apply lseg_app in Htk as (r' & Hpre & (-> & _ & nz & Hnz & _)).
  apply NoDup_app in Hnd as (Hnd1 & Hdis & _).
  apply NoDup_app in Hnd1 as (_ & Hdis1 & _).
  assert (Hz1 : z ∉ removelast (take n l)).
  { intros Hin. apply (Hdis1 z Hin). left. }
  assert (Hz2 : z ∉ drop n l).
  { apply Hdis. apply elem_of_app. right. left. }
  split; [| split].
  - unfold CentralCache.fetchRange.
    replace (FREE_LIST_SIZE <=? index) with false by (symmetry; apply Z.leb_gt; lia).
    replace (b =? 0) with false by (symmetry; apply Z.eqb_neq; lia).
    simpl. monad_unfold. unfold central_at.
    rewrite slot_in_range by exact Hi. simpl.
    rewrite Hhd. apply Z.eqb_neq in Hx as Hx'. rewrite Hx'.
    assert (Hwalk : take_walk n 0 (hd 0 l) w = Some ((z, hd 0 (drop n l)), w)).
    { rewrite Hhd in Hseg0. exact (take_walk_lseg w l n 0 _ Hseg0). }
    fold n. rewrite Hwalk. apply Z.eqb_neq in Hz as Hz'. rewrite Hz'.
    unfold store, set_central, modify. rewrite Hz'.
    rewrite bool_decide_eq_true_2 by exact Hi. reflexivity.
  - simpl. rewrite Hcut. apply lseg_app. exists z. split.
    + rewrite <- Hhd. apply lseg_insert_notin; assumption.
    + simpl. split; [reflexivity |]. split; [exact Hz |].
      eexists. split; [apply lookup_insert_eq | reflexivity].
  - simpl. rewrite lookup_insert_eq. simpl. rewrite <- Hr.
    apply lseg_insert_notin; assumption.
Qed.

(** [fetchRange] on a class whose central list is the chain [l] returns the
    head of the list; the first [batchNum] blocks (the whole list when it is
    shorter) are cut off as a null-terminated chain, and the blocks behind
    them stay the central list. Nothing but that class is touched. *)
Theorem fetchRange_detaches_batch (mmap : Z → option Z) (w : World) (index b : Z)
    (l : list Z) :
  0 ≤ index < FREE_LIST_SIZE → 1 ≤ b → l ≠ [] →
  lseg (mem w) (default 0 (centralFreeList_ w !! index)) l 0 →
  ∃ w', CentralCache.fetchRange mmap index b w = Some (hd 0 l, w')
    ∧ lseg (mem w') (hd 0 l) (take (Z.to_nat b) l) 0
    ∧ lseg (mem w') (default 0 (centralFreeList_ w' !! index)) (drop (Z.to_nat b) l) 0
    ∧ class_local index w w'.
Proof.
  intros Hi Hb Hne Hseg.
  destruct (fetchRange_detach mmap w index b l Hi Hb Hne Hseg) as (Hrun & Hl1 & Hl2).
  eexists. split; [exact Hrun |]. split; [exact Hl1 |]. split; [exact Hl2 |].
  eapply class_local_trans; [apply class_local_mem | apply class_local_central].
Qed.

Lemma fetchRange_detaches_batch_witness :
  ∃ w', CentralCache.fetchRange (λ _, None) 1 2 central_world
        = Some (hd 0 [4096; 8192; 12288], w')
    ∧ lseg (mem w') (hd 0 [4096; 8192; 12288]) (take (Z.to_nat 2) [4096; 8192; 12288]) 0
    ∧ lseg (mem w') (default 0 (centralFreeList_ w' !! 1))
           (drop (Z.to_nat 2) [4096; 8192; 12288]) 0
    ∧ class_local 1 central_world w'.
Proof.
  apply (fetchRange_detaches_batch (λ _, None) central_world 1 2 [4096; 8192; 12288]).
  - split; [lia | reflexivity].
  - lia.
  - discriminate.
  - apply lsegb_lseg. vm_compute. reflexivity.
Defined.

(** [returnRange] on a chain [l] of at most [size] blocks: the chain is
    spliced in front of the central list [ol] of the class. *)
Lemma returnRange_splice (w : World) (ptr size index : Z) (l ol : list Z) :
  0 ≤ index < FREE_LIST_SIZE → l ≠ [] →
  lseg (mem w) ptr l 0 → Z.of_nat (length l) ≤ size →
  lseg (mem w) (default 0 (centralFreeList_ w !! index)) ol 0 →
  List.last l 0 ∉ ol →
  let w' := with_central <[index := ptr]>
              (with_mem <[List.last l 0 := default 0 (centralFreeList_ w !! index)]> w) in
  CentralCache.returnRange ptr size index w = Some ((), w')
  ∧ lseg (mem w') ptr (l ++ ol) 0.
Proof.
  intros Hi Hne Hseg Hlen Hol Hdis. simpl.
  set (z := List.last l 0) in *.
  pose proof (app_removelast_last 0 Hne) as Hcut. fold z in Hcut.
  pose proof (lseg_NoDup _ _ _ Hseg) as Hnd.
  assert (Hptr : ptr ≠ 0).
  { destruct l as [| x l']; [contradiction |]. destruct Hseg as (-> & Hx & _). exact Hx. }
  rewrite Hcut in Hseg, Hnd.
  assert (Hwalk : tail_walk (Z.to_nat (size - 1)) ptr w = Some (z, w)).
  { apply (tail_walk_lseg w (removelast l) z ptr); [exact Hseg |].
    apply (f_equal length) in Hcut. rewrite length_app in Hcut. simpl in Hcut. lia. }
  apply lseg_app in Hseg as (r & Hpre & (-> & Hz & nz & Hnz & _)).
  apply NoDup_app in Hnd as (_ & Hdis1 & _).
  assert (Hz1 : z ∉ removelast l).
  { intros Hin. apply (Hdis1 z Hin). left. }
  split.
  - unfold CentralCache.returnRange.
    apply Z.eqb_neq in Hptr as Hptr'. rewrite Hptr'.
    replace (FREE_LIST_SIZE <=? index) with false by (symmetry; apply Z.leb_gt; lia).
    simpl. monad_unfold. rewrite Hwalk.
    unfold central_at, store, set_central, modify.
    rewrite slot_in_range by exact Hi. simpl.
    apply Z.eqb_neq in Hz as Hz'. rewrite Hz'.
    rewrite bool_decide_eq_true_2 by exact Hi. reflexivity.
  - simpl. rewrite Hcut at 1. rewrite <- app_assoc. apply lseg_app. exists z. split.
    + apply lseg_insert_notin; assumption.
    + simpl. split; [reflexivity |]. split; [exact Hz |].
      eexists. split; [apply lookup_insert_eq |].
      apply lseg_insert_notin; assumption.
Qed.

(** [returnRange] splices a chain of at most [size] blocks that are not on
    the central list in front of that list: the class list becomes the
    returned blocks followed by the old ones, and nothing but that class is
    touched. *)
Theorem returnRange_prepends_chain (w : World) (ptr size index : Z) (l ol : list Z) :
  0 ≤ index < FREE_LIST_SIZE → l ≠ [] →
  lseg (mem w) ptr l 0 → Z.of_nat (length l) ≤ size →
  lseg (mem w) (default 0 (centralFreeList_ w !! index)) ol 0 →
  (∀ y, y ∈ l → y ∉ ol) →
  ∃ w', CentralCache.returnRange ptr size index w = Some ((), w')
    ∧ lseg (mem w') (default 0 (centralFreeList_ w' !! index)) (l ++ ol) 0
    ∧ class_local index w w'.
Proof.
  intros Hi Hne Hseg Hlen Hol Hdis.
  destruct (returnRange_splice w ptr size index l ol Hi Hne Hseg Hlen Hol) as (Hrun & Hl).
  { apply Hdis. apply last_elem_of. exact Hne. }
  eexists. split; [exact Hrun |]. split.
  - simpl. rewrite lookup_insert_eq. exact Hl.
  - eapply class_local_trans; [apply class_local_mem | apply class_local_central].
Qed.

Lemma returnRange_prepends_chain_witness :
  ∃ w', CentralCache.returnRange 16384 2 1 returning_world = Some ((), w')
    ∧ lseg (mem w') (default 0 (centralFreeList_ w' !! 1))
           ([16384; 20480] ++ [4096; 8192; 12288]) 0
    ∧ class_local 1 returning_world w'.
Proof.
  apply (returnRange_prepends_chain returning_world 16384 2 1
           [16384; 20480] [4096; 8192; 12288]).
  - split; [lia | reflexivity].
  - discriminate.
  - apply lsegb_lseg. vm_compute. reflexivity.
  - simpl. lia.
  - apply lsegb_lseg. vm_compute. reflexivity.
  - intros y Hy Hy'. apply list_elem_of_In in Hy, Hy'. simpl in Hy, Hy'. lia.
Defined.

(** Returning a chain of [n] blocks and fetching [n] blocks of the same
    class gives the same chain back and leaves the central list as it was. *)
Theorem returnRange_fetchRange_round_trip (mmap : Z → option Z) (w : World)
    (ptr index : Z) (l ol : list Z) :
  0 ≤ index < FREE_LIST_SIZE → l ≠ [] →
  lseg (mem w) ptr l 0 →
  lseg (mem w) (default 0 (centralFreeList_ w !! index)) ol 0 →
  (∀ y, y ∈ l → y ∉ ol) →
  ∃ w1 w2,
    CentralCache.returnRange ptr (Z.of_nat (length l)) index w = Some ((), w1)
    ∧ CentralCache.fetchRange mmap index (Z.of_nat (length l)) w1 = Some (ptr, w2)
    ∧ lseg (mem w2) ptr l 0
    ∧ default 0 (centralFreeList_ w2 !! index) = default 0 (centralFreeList_ w !! index)
    ∧ lseg (mem w2) (default 0 (centralFreeList_ w2 !! index)) ol 0.
Proof.
  intros Hi Hne Hseg Hol Hdis.
  destruct (returnRange_splice w ptr (Z.of_nat (length l)) index l ol Hi Hne Hseg
              ltac:(lia) Hol) as (Hrun & Hl).
  { apply Hdis. apply last_elem_of. exact Hne. }
  set (w1 := with_central <[index := ptr]>
               (with_mem <[List.last l 0 := default 0 (centralFreeList_ w !! index)]> w))
    in *.
  assert (Hne' : l ++ ol ≠ []) by (destruct l; [contradiction | discriminate]).
  assert (Hlen : 1 ≤ Z.of_nat (length l)) by (destruct l; [contradiction | simpl; lia]).
  assert (Hl' : lseg (mem w1) (default 0 (centralFreeList_ w1 !! index)) (l ++ ol) 0).
  { unfold w1 at 2. simpl. rewrite lookup_insert_eq. exact Hl. }
  destruct (fetchRange_detach mmap w1 index (Z.of_nat (length l)) (l ++ ol) Hi Hlen Hne' Hl')
    as (Hfetch & Hl1 & Hl2).
  rewrite Nat2Z.id in Hfetch, Hl1, Hl2.
  rewrite !take_app_length, !drop_app_length in Hfetch.
  rewrite !take_app_length, ?drop_app_length in Hl1.
  rewrite ?take_app_length, !drop_app_length in Hl2.
  assert (Hhd : hd 0 (l ++ ol) = ptr).
  { destruct l as [| x l']; [contradiction |]. destruct Hseg as (-> & _). reflexivity. }
  rewrite Hhd in Hfetch, Hl1.
  exists w1. eexists. split; [exact Hrun |]. split; [exact Hfetch |].
  split; [exact Hl1 |]. split; [| exact Hl2].
  simpl. rewrite lookup_insert_eq. simpl. symmetry. exact (lseg_hd _ _ _ Hol).
Qed.

Lemma returnRange_fetchRange_round_trip_witness :
  ∃ w1 w2,
    CentralCache.returnRange 16384 (Z.of_nat (length [16384; 20480])) 1 returning_world
    = Some ((), w1)
    ∧ CentralCache.fetchRange (λ _, None) 1 (Z.of_nat (length [16384; 20480])) w1
      = Some (16384, w2)
    ∧ lseg (mem w2) 16384 [16384; 20480] 0
    ∧ default 0 (centralFreeList_ w2 !! 1) = default 0 (centralFreeList_ returning_world !! 1)
    ∧ lseg (mem w2) (default 0 (centralFreeList_ w2 !! 1)) [4096; 8192; 12288] 0.
Proof.
  apply (returnRange_fetchRange_round_trip (λ _, None) returning_world 16384 1
           [16384; 20480] [4096; 8192; 12288]).
  - split; [lia | reflexivity].
  - discriminate.
  - apply lsegb_lseg. vm_compute. reflexivity.
  - apply lsegb_lseg. vm_compute. reflexivity.
  - intros y Hy Hy'. apply list_elem_of_In in Hy, Hy'. simpl in Hy, Hy'. lia.
Defined.

(** A class index beyond the arrays is refused before any access:
    [fetchRange] returns null and [returnRange] returns, the state unchanged;
    so does [fetchRange] for a batch of zero blocks, and [returnRange] for a
    null chain. *)
Theorem central_refuses_bad_arguments (mmap : Z → option Z) (w : World)
    (ptr size index index' b : Z) :
  FREE_LIST_SIZE ≤ index →
  CentralCache.fetchRange mmap index b w = Some (0, w)
  ∧ CentralCache.returnRange ptr size index w = Some ((), w)
  ∧ CentralCache.fetchRange mmap index' 0 w = Some (0, w)
  ∧ CentralCache.returnRange 0 size index' w = Some ((), w).
Proof.
  intros Hi. unfold CentralCache.fetchRange, CentralCache.returnRange.
  replace (FREE_LIST_SIZE <=? index) with true by (symmetry; apply Z.leb_le; lia).
  split; [reflexivity |].
  split; [rewrite orb_true_r; reflexivity |].
  split; [| reflexivity].
  change (0 =? 0) with true. rewrite orb_true_r. reflexivity.
Qed.

Lemma central_refuses_bad_arguments_witness :
  CentralCache.fetchRange (λ _, None) 32768 4 central_world = Some (0, central_world)
  ∧ CentralCache.returnRange 4096 1 32768 central_world = Some ((), central_world)
  ∧ CentralCache.fetchRange (λ _, None) 1 0 central_world = Some (0, central_world)
  ∧ CentralCache.returnRange 0 1 1 central_world = Some ((), central_world).
Proof.
  apply (central_refuses_bad_arguments (λ _, None) central_world 4096 1 32768 1 4).
  vm_compute. intros H. discriminate H.
Defined.

(** * Further properties of PageCache *)

(** ** The path through the operating system *)

Lemma memset0_lookup_in (ptr size j : Z) (m : gmap Z Z) :
  0 ≤ j < size / 8 → memset0 ptr size m !! (ptr + 8 * j) = Some 0.
Proof.
  unfold memset0. intros Hj.
  assert (Hn : (Z.to_nat j < Z.to_nat (size / 8))%nat) by lia.
  revert Hn. generalize (Z.to_nat (size / 8)) as n. intros n.
  replace j with (Z.of_nat (Z.to_nat j)) at 2 by lia.
  generalize (Z.to_nat j) as k. clear j Hj. intros k Hk.
  induction n as [| n IH]; [lia |].
  rewrite seq_S, foldr_app. simpl.
  destruct (Nat.eq_dec k n) as [-> | Hne].
  - clear IH Hk. generalize (seq 0 n) as l. intros l.
    induction l as [| a l IHl]; simpl; [apply lookup_insert_eq |].
    destruct (Z.eq_dec (ptr + 8 * Z.of_nat a) (ptr + 8 * Z.of_nat n)) as [-> | Hne'].
    + apply lookup_insert_eq.
    + rewrite lookup_insert_ne by exact Hne'. exact IHl.
  - assert (Hk' : (k < n)%nat) by lia.
    assert (Hin : k ∈ seq 0 n) by (apply elem_of_seq; lia).
    clear IH Hk Hne.
    revert Hin. generalize (seq 0 n) as l. intros l Hin.
    induction l as [| a l IHl]; [inversion Hin |]. simpl.
    apply elem_of_cons in Hin as [<- | Hin]; [apply lookup_insert_eq |].
    destruct (Z.eq_dec (ptr + 8 * Z.of_nat a) (ptr + 8 * Z.of_nat k)) as [-> | Hne'].
    + apply lookup_insert_eq.
    + rewrite lookup_insert_ne by exact Hne'. exact (IHl Hin).
Qed.

Lemma memset0_lookup_out (ptr size a : Z) (m : gmap Z Z) :
  (∀ j, 0 ≤ j < size / 8 → a ≠ ptr + 8 * j) →
  memset0 ptr size m !! a = m !! a.
Proof.
  unfold memset0. intros Hout.
  assert (Hall : ∀ k, k ∈ seq 0 (Z.to_nat (size / 8)) → a ≠ ptr + 8 * Z.of_nat k).
  { intros k Hk. apply elem_of_seq in Hk. apply Hout. lia. }
  revert Hall. generalize (seq 0 (Z.to_nat (size / 8))) as l. intros l Hall.
  induction l as [| k l IH]; [reflexivity |]. simpl.
  rewrite lookup_insert_ne.
  - apply IH. intros k' Hk'. apply Hall. right. exact Hk'.
  - intros Heq. apply (Hall k); [left | symmetry; exact Heq].
Qed.

(** No free span is large enough and the operating system refuses. *)
Lemma allocateSpan_os_fail (mmap : Z → option Z) (w : World) (k : Z) :
  (∀ K v, FreeSpans_ w !! K = Some v → K < k) →
  mmap (wrap (k * PAGE_SIZE)) = None →
  allocateSpan mmap k w = Some (0, w).
Proof.
  intros Hnone Hfail. unfold allocateSpan. monad_unfold.
  rewrite (lower_bound_none k _ Hnone).
  unfold systemaAlloc. rewrite Hfail. reflexivity.
Qed.

(** No free span is large enough and the operating system grants pages. *)
Lemma allocateSpan_os_grant (mmap : Z → option Z) (w : World) (k memory : Z) :
  (∀ K v, FreeSpans_ w !! K = Some v → K < k) →
  mmap (wrap (k * PAGE_SIZE)) = Some memory → memory ≠ 0 →
  ∃ sp, sp ≠ 0 ∧ spans w !! sp = None
    ∧ allocateSpan mmap k w
      = Some (memory,
              with_SpanMap <[memory := sp]>
                (with_spans <[sp := mkSpan memory k 0]>
                   (with_mem (memset0 memory (wrap (k * PAGE_SIZE))) w))).
Proof.
  intros Hnone Hgrant Hmem. unfold allocateSpan. monad_unfold.
  rewrite (lower_bound_none k _ Hnone).
  unfold systemaAlloc. rewrite Hgrant. monad_unfold.
  apply Z.eqb_neq in Hmem as Hmem'. rewrite Hmem'.
  destruct (new_Span_fresh (with_mem (memset0 memory (wrap (k * PAGE_SIZE))) w))
    as (sp & Hnew & Hsp & Hfresh).
  rewrite Hnew. exists sp. split; [exact Hsp |]. split; [exact Hfresh |].
  unfold store_span. apply Z.eqb_neq in Hsp. rewrite Hsp. reflexivity.
Qed.

(** When no free span has [k] pages and the operating system grants them,
    [allocateSpan k] returns the granted address, records a new span of [k]
    pages under it in [SpanMap_], leaves [FreeSpans_] alone, and has zeroed
    every word of the range. *)
Theorem allocateSpan_from_os (mmap : Z → option Z) (w : World) (k memory : Z) :
  (∀ K v, FreeSpans_ w !! K = Some v → K < k) →
  mmap (wrap (k * PAGE_SIZE)) = Some memory → memory ≠ 0 →
  ∃ sp w', allocateSpan mmap k w = Some (memory, w')
    ∧ spans w !! sp = None
    ∧ spans w' = <[sp := mkSpan memory k 0]> (spans w)
    ∧ SpanMap_ w' = <[memory := sp]> (SpanMap_ w)
    ∧ FreeSpans_ w' = FreeSpans_ w
    ∧ (∀ j, 0 ≤ j < wrap (k * PAGE_SIZE) / 8 → mem w' !! (memory + 8 * j) = Some 0).
Proof.
  intros Hnone Hgrant Hmem.
  destruct (allocateSpan_os_grant mmap w k memory Hnone Hgrant Hmem)
    as (sp & _ & Hfresh & Hrun).
  exists sp. eexists. split; [exact Hrun |]. simpl.
  repeat split; try reflexivity; try assumption.
  intros j Hj. apply memset0_lookup_in. exact Hj.
Qed.

Lemma allocateSpan_from_os_witness :
  ∃ sp w', allocateSpan (λ _, Some 1048576) 1 empty_world = Some (1048576, w')
    ∧ spans empty_world !! sp = None
    ∧ spans w' = <[sp := mkSpan 1048576 1 0]> (spans empty_world)
    ∧ SpanMap_ w' = <[1048576 := sp]> (SpanMap_ empty_world)
    ∧ FreeSpans_ w' = FreeSpans_ empty_world
    ∧ (∀ j, 0 ≤ j < wrap (1 * PAGE_SIZE) / 8 → mem w' !! (1048576 + 8 * j) = Some 0).
Proof.
  apply (allocateSpan_from_os (λ _, Some 1048576) empty_world 1 1048576).
  - intros K v HK. discriminate HK.
  - reflexivity.
  - lia.
Defined.

(** When no free span has [k] pages and the operating system refuses,
    [allocateSpan k] returns null and changes nothing. *)
Theorem allocateSpan_out_of_memory (mmap : Z → option Z) (w : World) (k : Z) :
  (∀ K v, FreeSpans_ w !! K = Some v → K < k) →
  mmap (wrap (k * PAGE_SIZE)) = None →
  allocateSpan mmap k w = Some (0, w).
Proof. exact (allocateSpan_os_fail mmap w k). Qed.

Lemma allocateSpan_out_of_memory_witness :
  allocateSpan (λ _, None) 4 released_world = Some (0, released_world).
Proof.
  apply (allocateSpan_out_of_memory (λ _, None) released_world 4).
  - intros K v HK. unfold released_world in HK. simpl in HK.
    apply lookup_singleton_Some in HK as [<- _]. lia.
  - reflexivity.
Defined.

(** ** Null heads, coalescing and reuse *)

(** When the entry [lower_bound] lands on has a null head, [allocateSpan]
    dereferences it ([span->next]): the call has no defined result, whatever
    larger free spans or the operating system could offer. *)
Theorem allocateSpan_derefs_null_head (mmap : Z → option Z) (w : World) (k K : Z) :
  FreeSpans_ w !! K = Some 0 → k ≤ K →
  (∀ K' v, FreeSpans_ w !! K' = Some v → k ≤ K' → K ≤ K') →
  allocateSpan mmap k w = None.
Proof.
  intros HK Hle Hmin. unfold allocateSpan. monad_unfold.
  rewrite (lower_bound_least k _ K 0 HK Hle Hmin). reflexivity.
Qed.

Lemma allocateSpan_derefs_null_head_witness :
  allocateSpan (λ _, Some 1048576) 2 null_head_world = None.
Proof.
  apply (allocateSpan_derefs_null_head (λ _, Some 1048576) null_head_world 2 8).
  - reflexivity.
  - lia.
  - intros K' v HK' Hle.
    change (FreeSpans_ null_head_world) with (<[8 := 0]> ({[1 := 1]} : gmap Z Z)) in HK'.
    apply lookup_insert_Some in HK' as [[<- _] | [_ HK']]; [lia |].
    apply lookup_singleton_Some in HK' as [<- _]. lia.
Defined.

(** Releasing a span whose successor is handed out, while no free span has
    the successor's page count, does not merge, and leaves a null head in
    [FreeSpans_] under that page count. *)
Theorem deallocateSpan_leaves_null_head (w : World) (ptr k sp nsp : Z) (s ns : Span) :
  SpanMap_ w !! ptr = Some sp → sp ≠ 0 → spans w !! sp = Some s →
  SpanMap_ w !! (ptr + wrap (k * PAGE_SIZE)) = Some nsp →
  nsp ≠ 0 → spans w !! nsp = Some ns →
  FreeSpans_ w !! sizePages ns = None → sizePages ns ≠ sizePages s →
  ∃ w', deallocateSpan ptr k w = Some ((), w')
    ∧ FreeSpans_ w' !! sizePages ns = Some 0
    ∧ FreeSpans_ w' !! sizePages s = Some sp
    ∧ SpanMap_ w' = SpanMap_ w
    ∧ spans w' !! nsp = Some ns.
Proof.
  intros Hptr Hsp Hs Hnext Hnsp Hns Hfree Hsize.
  unfold deallocateSpan. monad_unfold. rewrite Hptr, Hnext.
  unfold deref_span.
  apply Z.eqb_neq in Hsp as Hsp'. apply Z.eqb_neq in Hnsp as Hnsp'.
  rewrite Hnsp', Hns. unfold FreeSpans_at at 1. rewrite Hfree.
  replace (0 =? nsp) with false by (symmetry; apply Z.eqb_neq; lia).
  simpl. rewrite Hsp', Hs.
  unfold FreeSpans_at, store_span, set_FreeSpans, modify. simpl.
  rewrite lookup_insert_ne by exact Hsize.
  assert (Hd : sp ≠ nsp).
  { intros ->. rewrite Hs in Hns. injection Hns as <-. contradiction. }
  destruct (FreeSpans_ w !! sizePages s) as [hd |] eqn:Hhd; simpl; rewrite Hsp'; simpl.
  all: eexists; split; [reflexivity |]; simpl.
  all: repeat split.
  all: rewrite ?lookup_insert_eq; try reflexivity.
  all: rewrite ?(lookup_insert_ne _ (sizePages s) (sizePages ns)) by congruence.
  all: rewrite ?lookup_insert_eq; try reflexivity.
  all: rewrite lookup_insert_ne by exact Hd; exact Hns.
Qed.

Lemma deallocateSpan_leaves_null_head_witness :
  ∃ w', deallocateSpan 1048576 1 two_live_spans_world = Some ((), w')
    ∧ FreeSpans_ w' !! sizePages (mkSpan 1052672 8 0) = Some 0
    ∧ FreeSpans_ w' !! sizePages (mkSpan 1048576 1 0) = Some 1
    ∧ SpanMap_ w' = SpanMap_ two_live_spans_world
    ∧ spans w' !! 2 = Some (mkSpan 1052672 8 0).
Proof.
  apply (deallocateSpan_leaves_null_head two_live_spans_world 1048576 1 1 2
           (mkSpan 1048576 1 0) (mkSpan 1052672 8 0)).
  all: try reflexivity; try lia.
  simpl. lia.
Defined.

(** Forward coalescing: when the span registered at [ptr + k * PAGE_SIZE] is
    the head of the free list of its page count, it is unlinked, its pages are
    added to the released span, its Span is deleted and its base erased from
    [SpanMap_]; the merged span becomes the head of the list of the sum. *)
Theorem deallocateSpan_merges_free_successor (w : World) (ptr k sp nsp : Z) (s ns : Span) :
  SpanMap_ w !! ptr = Some sp → sp ≠ 0 → spans w !! sp = Some s →
  SpanMap_ w !! (ptr + wrap (k * PAGE_SIZE)) = Some nsp →
  nsp ≠ 0 → spans w !! nsp = Some ns → sp ≠ nsp →
  FreeSpans_ w !! sizePages ns = Some nsp →
  let pages := wrap (sizePages s + sizePages ns) in
  let unlinked := <[sizePages ns := next ns]> (FreeSpans_ w) in
  ∃ w', deallocateSpan ptr k w = Some ((), w')
    ∧ spans w' !! sp = Some (mkSpan (PageAddr s) pages (default 0 (unlinked !! pages)))
    ∧ spans w' !! nsp = None
    ∧ SpanMap_ w' = delete (ptr + wrap (k * PAGE_SIZE)) (SpanMap_ w)
    ∧ FreeSpans_ w' = <[pages := sp]> unlinked.
Proof.
  intros Hptr Hsp Hs Hnext Hnsp Hns Hd Hhead. simpl.
  unfold deallocateSpan. monad_unfold. rewrite Hptr, Hnext.
  unfold deref_span.
  apply Z.eqb_neq in Hsp as Hsp'. apply Z.eqb_neq in Hnsp as Hnsp'.
  rewrite Hnsp', Hns. unfold FreeSpans_at at 1. rewrite Hhead.
  rewrite Z.eqb_refl. unfold set_FreeSpans, modify. simpl.
  rewrite Hsp', Hs. simpl. rewrite Hns. unfold store_span. rewrite ?Hsp'.
  unfold delete_Span, modify. simpl.
  rewrite lookup_delete_ne by congruence. rewrite lookup_insert_eq.
  unfold FreeSpans_at. simpl.
  destruct (<[sizePages ns := next ns]> (FreeSpans_ w)
              !! wrap (sizePages s + sizePages ns)) as [hd |] eqn:Hhd;
    simpl; rewrite ?Hsp'; simpl.
  all: eexists; split; [reflexivity |]; simpl.
  all: split; [apply lookup_insert_eq |].
  all: split; [rewrite lookup_insert_ne by congruence; apply lookup_delete_eq |].
  all: split; [reflexivity |].
  - reflexivity.
  - apply insert_insert_eq.
Qed.

Lemma deallocateSpan_merges_free_successor_witness :
  ∃ w', deallocateSpan 1048576 1 merge_world = Some ((), w')
    ∧ spans w' !! 1
      = Some (mkSpan 1048576 (wrap (1 + 2))
                (default 0 (<[2 := 0]> (FreeSpans_ merge_world) !! wrap (1 + 2))))
    ∧ spans w' !! 2 = None
    ∧ SpanMap_ w' = delete (1048576 + wrap (1 * PAGE_SIZE)) (SpanMap_ merge_world)
    ∧ FreeSpans_ w' = <[wrap (1 + 2) := 1]> (<[2 := 0]> (FreeSpans_ merge_world)).
Proof.
  apply (deallocateSpan_merges_free_successor merge_world 1048576 1 1 2
           (mkSpan 1048576 1 0) (mkSpan 1052672 2 0)).
  all: try reflexivity; lia.
Defined.



(** ** What the PageCache leaves alone *)

Lemma page_cache_only_refl (w : World) : page_cache_only w w.
Proof. unfold page_cache_only. auto. Qed.

Lemma page_cache_only_trans (w1 w2 w3 : World) :
  page_cache_only w1 w2 → page_cache_only w2 w3 → page_cache_only w1 w3.
Proof.
  unfold page_cache_only. intros (-> & -> & -> & ->) (-> & -> & -> & ->). auto.
Qed.

Lemma deref_span_only (sp : Z) (s : Span) (w w' : World) :
  deref_span sp w = Some (s, w') → w' = w.
Proof. intros H. apply deref_span_Some in H as (-> & _). reflexivity. Qed.

Lemma store_span_only (sp : Z) (s : Span) (w w' : World) (u : ()) :
  store_span sp s w = Some (u, w') → page_cache_only w w'.
Proof.
  intros H. apply store_span_Some in H as (_ & ->). unfold page_cache_only. auto.
Qed.

Lemma FreeSpans_at_only (k v : Z) (w w' : World) :
  FreeSpans_at k w = Some (v, w') → page_cache_only w w'.
Proof.
  unfold FreeSpans_at. destruct (FreeSpans_ w !! k); intros [= _ <-];
    unfold page_cache_only; auto.
Qed.

Lemma unlink_walk_only (fuel : nat) (prev nextSpan : Z) (w w' : World) (b : bool) :
  unlink_walk fuel prev nextSpan w = Some (b, w') → page_cache_only w w'.
Proof.
  revert prev w. induction fuel as [| fuel IH]; intros prev w; simpl; [discriminate |].
  intros H. apply bind_Some in H as (p & w0 & Hp & H).
  apply deref_span_only in Hp as ->.
  destruct (next p =? 0); [injection H as _ <-; apply page_cache_only_refl |].
  destruct (next p =? nextSpan); [| exact (IH _ _ H)].
  apply bind_Some in H as (ns & w2 & Hns & H).
  apply deref_span_only in Hns as ->.
  apply bind_Some in H as (u & w3 & Hst & H).
  apply store_span_only in Hst. injection H as _ <-. exact Hst.
Qed.

(** [deallocateSpan] works on the span records and the two maps only: block
    memory, the thread's lists and the central lists are never written. *)
Theorem deallocateSpan_leaves_caches (w w' : World) (ptr k : Z) :
  deallocateSpan ptr k w = Some ((), w') → page_cache_only w w'.
Proof.
  unfold deallocateSpan. intros H.
  apply bind_Some in H as (w0 & w0' & Hget & H). injection Hget as -> ->.
  destruct (SpanMap_ w0' !! ptr) as [sp |];
    [| injection H as <-; apply page_cache_only_refl].
  apply bind_Some in H as (u & w1 & Hphase1 & H).
  assert (H1 : page_cache_only w0' w1).
  { destruct (SpanMap_ w0' !! (ptr + wrap (k * PAGE_SIZE))) as [nsp |];
      [| injection Hphase1 as _ <-; apply page_cache_only_refl].
    apply bind_Some in Hphase1 as (ns & w2 & Hns & Hphase1).
    apply deref_span_only in Hns as ->.
    apply bind_Some in Hphase1 as (NextList & w3 & Hat & Hphase1).
    apply FreeSpans_at_only in Hat.
    apply bind_Some in Hphase1 as (found & w4 & Hfound & Hphase1).
    assert (H34 : page_cache_only w3 w4).
    { destruct (NextList =? nsp).
      - apply bind_Some in Hfound as (u1 & w5 & Hset & Hret).
        injection Hset as _ <-. injection Hret as _ <-. unfold page_cache_only. auto.
      - destruct (NextList =? 0).
        + injection Hfound as _ <-. apply page_cache_only_refl.
        + exact (unlink_walk_only _ _ _ _ _ _ Hfound). }
    eapply page_cache_only_trans; [exact Hat |].
    eapply page_cache_only_trans; [exact H34 |].
    destruct found; [| injection Hphase1 as _ <-; apply page_cache_only_refl].
    apply bind_Some in Hphase1 as (s & w5 & Hs & Hphase1).
    apply deref_span_only in Hs as ->.
    apply bind_Some in Hphase1 as (ns' & w6 & Hns' & Hphase1).
    apply deref_span_only in Hns' as ->.
    apply bind_Some in Hphase1 as (u2 & w7 & Hst & Hphase1).
    apply store_span_Some in Hst as (_ & ->).
    apply bind_Some in Hphase1 as (u3 & w8 & Hmod & Hdel).
    injection Hmod as _ <-. injection Hdel as _ <-. unfold page_cache_only. auto. }
  eapply page_cache_only_trans; [exact H1 |].
  apply bind_Some in H as (s & w2 & Hs & H).
  apply deref_span_only in Hs as ->.
  apply bind_Some in H as (list & w3 & Hat & H).
  apply FreeSpans_at_only in Hat.
  eapply page_cache_only_trans; [exact Hat |].
  apply bind_Some in H as (u4 & w4 & Hst & Hset).
  apply store_span_Some in Hst as (_ & ->).
  injection Hset as <-. unfold page_cache_only. auto.
Qed.

Lemma deallocateSpan_leaves_caches_witness :
  page_cache_only live_span_world released_world.
Proof.
  apply (deallocateSpan_leaves_caches live_span_world released_world 1048576 1).
  vm_compute. reflexivity.
Defined.

(** [allocateSpan] never writes the thread's or the central lists, and keeps
    every entry of [SpanMap_] other than the one of the base it returns. *)
Theorem allocateSpan_keeps_other_spans (mmap : Z → option Z) (w w' : World) (k r : Z) :
  allocateSpan mmap k w = Some (r, w') →
  _freeList w' = _freeList w ∧ _freeListSize w' = _freeListSize w
  ∧ centralFreeList_ w' = centralFreeList_ w
  ∧ ∀ a, a ≠ r → SpanMap_ w' !! a = SpanMap_ w !! a.
Proof.
  unfold allocateSpan. intros H.
  apply bind_Some in H as (w0 & w0' & Hget & H). injection Hget as -> ->.
  destruct (lower_bound k (FreeSpans_ w0')) as [[key span] |].
  - apply bind_Some in H as (s & w1 & Hs & H).
    apply deref_span_only in Hs as ->.
    apply bind_Some in H as (u & w2 & Hunlink & H).
    assert (H2 : page_cache_only w0' w2 ∧ SpanMap_ w2 = SpanMap_ w0').
    { destruct (next s =? 0); injection Hunlink as _ <-;
        unfold page_cache_only; auto. }
    apply bind_Some in H as (u1 & w3 & Hsplit & H).
    assert (H3 : page_cache_only w2 w3 ∧ SpanMap_ w3 = SpanMap_ w2).
    { destruct (k <? sizePages s);
        [| injection Hsplit as _ <-; split; [apply page_cache_only_refl | reflexivity]].
      apply bind_Some in Hsplit as (newSpan & w4 & Hnew & Hsplit).
      injection Hnew as _ <-.
      apply bind_Some in Hsplit as (list & w5 & Hat & Hsplit).
      pose proof (FreeSpans_at_only _ _ _ _ Hat) as Hat1.
      apply FreeSpans_at_Some in Hat as (Hsm & _).
      apply bind_Some in Hsplit as (u2 & w6 & Hst & Hsplit).
      apply store_span_Some in Hst as (_ & ->).
      apply bind_Some in Hsplit as (u3 & w7 & Hset & Hsplit).
      injection Hset as _ <-.
      apply store_span_Some in Hsplit as (_ & ->).
      split; [| exact Hsm].
      eapply page_cache_only_trans; [exact Hat1 |]. unfold page_cache_only. auto. }
    apply bind_Some in H as (u2 & w4 & Hmod & H).
    injection Hmod as _ <-. injection H as <- <-.
    destruct H2 as ((_ & Ha & Hb & Hc) & Hsm2).
    destruct H3 as ((_ & Ha' & Hb' & Hc') & Hsm3). simpl.
    rewrite Ha', Hb', Hc', Ha, Hb, Hc, Hsm3, Hsm2.
    repeat split; try reflexivity.
    intros a Ha0. apply lookup_insert_ne. congruence.
  - apply bind_Some in H as (memory & w1 & Hsys & H).
    assert (H1 : _freeList w1 = _freeList w0' ∧ _freeListSize w1 = _freeListSize w0'
                 ∧ centralFreeList_ w1 = centralFreeList_ w0'
                 ∧ SpanMap_ w1 = SpanMap_ w0').
    { unfold systemaAlloc in Hsys. destruct (mmap (wrap (k * PAGE_SIZE))).
      - apply bind_Some in Hsys as (u & w2 & Hmod & Hret).
        injection Hmod as _ <-. injection Hret as _ <-. auto.
      - injection Hsys as _ <-. auto. }
    destruct H1 as (Ha & Hb & Hc & Hd).
    destruct (memory =? 0).
    + injection H as <- <-. rewrite Ha, Hb, Hc, Hd. auto.
    + apply bind_Some in H as (span & w2 & Hnew & H). injection Hnew as _ <-.
      apply bind_Some in H as (u & w3 & Hst & H).
      apply store_span_Some in Hst as (_ & ->).
      apply bind_Some in H as (u1 & w4 & Hmod & H).
      injection Hmod as _ <-. injection H as <- <-. simpl.
      rewrite Ha, Hb, Hc, Hd. repeat split; try reflexivity.
      intros a Ha0. apply lookup_insert_ne. congruence.
Qed.

Lemma allocateSpan_keeps_other_spans_witness :
  _freeList (with_SpanMap <[1048576 := 1]> (with_FreeSpans (delete 3) best_fit_world))
  = _freeList best_fit_world
  ∧ _freeListSize (with_SpanMap <[1048576 := 1]> (with_FreeSpans (delete 3) best_fit_world))
    = _freeListSize best_fit_world
  ∧ centralFreeList_
      (with_SpanMap <[1048576 := 1]> (with_FreeSpans (delete 3) best_fit_world))
    = centralFreeList_ best_fit_world
  ∧ ∀ a, a ≠ 1048576 →
      SpanMap_ (with_SpanMap <[1048576 := 1]> (with_FreeSpans (delete 3) best_fit_world))
        !! a
      = SpanMap_ best_fit_world !! a.
Proof.
  apply (allocateSpan_keeps_other_spans (λ _, None) best_fit_world _ 3 1048576).
  vm_compute. reflexivity.
Defined.

(** * The path from ThreadCache to the operating system *)

Lemma class_size_wrap (index : Z) :
  0 ≤ index < FREE_LIST_SIZE →
  wrap (wrap (index + 1) * ALIGNMENT) = (index + 1) * ALIGNMENT.
Proof.
  intros Hi. unfold FREE_LIST_SIZE in Hi.
  change (MAX_BYTES / ALIGNMENT) with 32768 in Hi.
  unfold ALIGNMENT, SIZE_T_MOD, SIZE_T_BITS.
  rewrite (wrap_small (index + 1)) by (unfold SIZE_T_MOD, SIZE_T_BITS; lia).
  apply wrap_small. unfold SIZE_T_MOD, SIZE_T_BITS. lia.
Qed.

Lemma getBatchNum_class (index : Z) :
  0 ≤ index < FREE_LIST_SIZE →
  ∃ b, getBatchNum ((index + 1) * ALIGNMENT) = Some b ∧ 4 ≤ b ≤ 64.
Proof.
  intros Hi. unfold getBatchNum, MAX_BATCH_SIZE, SIZEOF_INT, ALIGNMENT.
  destruct (Z.eqb_spec ((index + 1) * 8) 0) as [Heq | _]; [lia |].
  eexists. split; [reflexivity |].
  repeat (match goal with |- context [?a <=? ?b] => destruct (Z.leb_spec a b) end); lia.
Qed.

Lemma fetchFromPageCache_class (mmap : Z → option Z) (index : Z) :
  0 ≤ index < FREE_LIST_SIZE →
  CentralCache.fetchFromPageCache mmap ((index + 1) * ALIGNMENT)
  = allocateSpan mmap SPAN_PAGES.
Proof.
  intros Hi. unfold FREE_LIST_SIZE in Hi.
  change (MAX_BYTES / ALIGNMENT) with 32768 in Hi.
  unfold CentralCache.fetchFromPageCache, ALIGNMENT, PAGE_SIZE, SPAN_PAGES.
  rewrite wrap_small by (unfold SIZE_T_MOD, SIZE_T_BITS; lia).
  destruct (Z.leb_spec (((index + 1) * 8 + 4096 - 1) / 4096) (8 * 4096)) as [_ | Hgt];
    [reflexivity |].
  exfalso.
  assert (((index + 1) * 8 + 4096 - 1) / 4096 < 66) by (apply Z.div_lt_upper_bound; lia).
  lia.
Qed.

(** [fetchFromCentralCache] on a class whose central list is the chain [l]:
    the head of the chain is returned to the caller, the blocks that follow it
    among the first [getBatchNum] become the thread's list of the class, the
    rest stays with CentralCache, and the counter grows by the whole batch
    count, however many blocks the central list had. *)
Theorem fetchFromCentralCache_takes_batch (mmap : Z → option Z) (w : World) (index : Z)
    (l : list Z) :
  0 ≤ index < FREE_LIST_SIZE → l ≠ [] →
  lseg (mem w) (default 0 (centralFreeList_ w !! index)) l 0 →
  ∃ b w', getBatchNum ((index + 1) * ALIGNMENT) = Some b
    ∧ ThreadCache.fetchFromCentralCache mmap index w = Some (hd 0 l, w')
    ∧ lseg (mem w') (default 0 (_freeList w' !! index)) (tail (take (Z.to_nat b) l)) 0
    ∧ lseg (mem w') (default 0 (centralFreeList_ w' !! index)) (drop (Z.to_nat b) l) 0
    ∧ default 0 (_freeListSize w' !! index)
      = wrap (default 0 (_freeListSize w !! index) + b).
Proof.
  intros Hi Hne Hseg.
  destruct (getBatchNum_class index Hi) as (b & Hb & Hb4).
  destruct (fetchRange_detach mmap w index b l Hi ltac:(lia) Hne Hseg)
    as (Hfetch & Hl1 & Hl2).
  set (w1 := with_central <[index := hd 0 (drop (Z.to_nat b) l)]>
               (with_mem <[List.last (take (Z.to_nat b) l) 0 := 0]> w)) in *.
  assert (Hx : hd 0 l ≠ 0).
  { destruct l as [| x l']; [contradiction |]. simpl.
    apply (lseg_nonzero _ _ _ x _ Hseg). left. }
  assert (Htk : ∃ t, take (Z.to_nat b) l = hd 0 l :: t).
  { destruct l as [| x l']; [contradiction |].
    destruct (Z.to_nat b) eqn:Hn; [lia |]. simpl. eauto. }
  destruct Htk as (t & Htk). rewrite Htk in Hl1.
  destruct Hl1 as (_ & _ & nx & Hnx & Ht).
  exists b. eexists. split; [exact Hb |].
  unfold ThreadCache.fetchFromCentralCache.
  rewrite (class_size_wrap index Hi), Hb.
  monad_unfold. rewrite Hfetch.
  apply Z.eqb_neq in Hx as Hx'. rewrite Hx'.
  unfold freeListSize_at, set_freeListSize, load, set_freeList. monad_unfold.
  rewrite slot_in_range by exact Hi. simpl.
  rewrite !bool_decide_eq_true_2 by exact Hi. simpl.
  replace (1 <? b) with true by (symmetry; apply Z.ltb_lt; lia).
  rewrite Hx'.
  change (mem (with_freeListSize _ w1)) with (mem w1). rewrite Hnx.
  split; [reflexivity |]. simpl. rewrite !lookup_insert_eq. simpl.
  split; [rewrite Htk; simpl tail; rewrite <- Htk; exact Ht |]. split; [| reflexivity].
  simpl in Hl2. rewrite lookup_insert_eq in Hl2. exact Hl2.
Qed.

Lemma fetchFromCentralCache_takes_batch_witness :
  ∃ b w', getBatchNum ((1 + 1) * ALIGNMENT) = Some b
    ∧ ThreadCache.fetchFromCentralCache (λ _, None) 1 central_world
      = Some (hd 0 [4096; 8192; 12288], w')
    ∧ lseg (mem w') (default 0 (_freeList w' !! 1))
           (tail (take (Z.to_nat b) [4096; 8192; 12288])) 0
    ∧ lseg (mem w') (default 0 (centralFreeList_ w' !! 1))
           (drop (Z.to_nat b) [4096; 8192; 12288]) 0
    ∧ default 0 (_freeListSize w' !! 1)
      = wrap (default 0 (_freeListSize central_world !! 1) + b).
Proof.
  apply (fetchFromCentralCache_takes_batch (λ _, None) central_world 1 [4096; 8192; 12288]).
  - split; [lia | reflexivity].
  - discriminate.
  - apply lsegb_lseg. vm_compute. reflexivity.
Defined.

(** Out of memory: when the central list of the class is empty, no free span
    has [SPAN_PAGES] pages and the operating system refuses, the null pointer
    travels up from PageCache through [fetchRange] to
    [fetchFromCentralCache], and no tier has changed. *)
Theorem fetchFromCentralCache_out_of_memory (mmap : Z → option Z) (w : World) (index : Z) :
  0 ≤ index < FREE_LIST_SIZE →
  default 0 (centralFreeList_ w !! index) = 0 →
  (∀ K v, FreeSpans_ w !! K = Some v → K < SPAN_PAGES) →
  mmap (wrap (SPAN_PAGES * PAGE_SIZE)) = None →
  ThreadCache.fetchFromCentralCache mmap index w = Some (0, w).
Proof.
  intros Hi Hempty Hnone Hfail.
  destruct (getBatchNum_class index Hi) as (b & Hb & Hb4).
  unfold ThreadCache.fetchFromCentralCache.
  rewrite (class_size_wrap index Hi), Hb.
  monad_unfold. unfold CentralCache.fetchRange.
  destruct (Z.leb_spec FREE_LIST_SIZE index) as [Hge | _]; [lia |].
  destruct (Z.eqb_spec b 0) as [Hb0 | _]; [lia |].
  rewrite (class_size_wrap index Hi), (fetchFromPageCache_class mmap index Hi).
  cbn [orb]. monad_unfold. unfold central_at.
  rewrite slot_in_range by exact Hi. simpl. rewrite Hempty. simpl.
  rewrite (allocateSpan_os_fail mmap w SPAN_PAGES Hnone Hfail). reflexivity.
Qed.

Lemma fetchFromCentralCache_out_of_memory_witness :
  ThreadCache.fetchFromCentralCache (λ _, None) 1 empty_world = Some (0, empty_world).
Proof.
  apply (fetchFromCentralCache_out_of_memory (λ _, None) empty_world 1).
  - split; [lia | reflexivity].
  - reflexivity.
  - intros K v HK. discriminate HK.
  - reflexivity.
Defined.

(** * Slicing a span into blocks *)

Lemma with_mem_const_id (w : World) : with_mem (λ _, mem w) w = w.
Proof. destruct w. reflexivity. Qed.

Lemma block_addrs_elem (start size from x : Z) (count : nat) :
  x ∈ block_addrs start size from count →
  ∃ j, from ≤ j < from + Z.of_nat count ∧ x = start + j * size.
Proof.
  revert from. induction count as [| c IH]; intros from; simpl; [intros H; inversion H |].
  intros H. apply elem_of_cons in H as [-> | H].
  - exists from. lia.
  - apply IH in H as (j & Hj & ->). exists j. lia.
Qed.

Lemma lseg_ext (m m' : gmap Z Z) (p q : Z) (l : list Z) :
  (∀ x, x ∈ l → m' !! x = m !! x) → lseg m p l q → lseg m' p l q.
Proof.
  revert p. induction l as [| a l IH]; intros p Hext; simpl; [auto |].
  intros (-> & Ha & n & Hn & Hl). split; [reflexivity |]. split; [exact Ha |].
  exists n. split; [rewrite Hext by left; exact Hn |].
  apply IH; [| exact Hl]. intros x Hx. apply Hext. right. exact Hx.
Qed.

(** Blocks linked each to the next, the last to null, form a chain. *)
Lemma lseg_block_addrs (m : gmap Z Z) (start size from : Z) (c : nat) :
  0 < start → 0 < size → 0 ≤ from →
  (∀ j, from ≤ j < from + Z.of_nat c →
        m !! (start + j * size) = Some (start + (j + 1) * size)) →
  m !! (start + (from + Z.of_nat c) * size) = Some 0 →
  lseg m (start + from * size) (block_addrs start size from (S c)) 0.
Proof.
  intros Hstart Hsize. revert from. induction c as [| c IH]; intros from Hfrom Hlinks Hlast.
  - simpl. split; [reflexivity |]. split; [nia |].
    exists 0. split; [| reflexivity].
    replace (from + Z.of_nat 0) with from in Hlast by lia. exact Hlast.
  - change (block_addrs start size from (S (S c)))
      with ((start + from * size) :: block_addrs start size (from + 1) (S c)).
    simpl lseg. split; [reflexivity |]. split; [nia |].
    exists (start + (from + 1) * size). split; [apply Hlinks; lia |].
    apply IH; [lia | |].
    + intros j Hj. apply Hlinks. lia.
    + replace (from + 1 + Z.of_nat c) with (from + Z.of_nat (S c)) by lia. exact Hlast.
Qed.

(** The linking loop of [fetchRange]. *)
Lemma link_blocks_spec (fuel : nat) (start size i : Z) (w : World) :
  0 < start → 0 < size → 1 ≤ i → (i + Z.of_nat fuel) * size < SIZE_T_MOD →
  ∃ m', link_blocks fuel start size i w = Some ((), with_mem (λ _, m') w)
    ∧ (∀ j, i ≤ j < i + Z.of_nat fuel →
            m' !! (start + (j - 1) * size) = Some (start + j * size))
    ∧ (∀ x, (∀ j, i ≤ j < i + Z.of_nat fuel → x ≠ start + (j - 1) * size) →
            m' !! x = mem w !! x).
Proof.
  intros Hstart Hsize. revert i w. induction fuel as [| fuel IH]; intros i w Hi Hbound.
  - exists (mem w). simpl. rewrite with_mem_const_id.
    split; [reflexivity |]. split; [intros j Hj; lia | auto].
  - assert (Hw1 : wrap (i - 1) = i - 1) by (apply wrap_small; nia).
    assert (Hw2 : wrap ((i - 1) * size) = (i - 1) * size) by (apply wrap_small; nia).
    assert (Hw3 : wrap (i * size) = i * size) by (apply wrap_small; nia).
    assert (Hw4 : wrap (i + 1) = i + 1) by (apply wrap_small; nia).
    destruct (IH (i + 1) (with_mem <[start + (i - 1) * size := start + i * size]> w)
                ltac:(lia) ltac:(nia)) as (m' & Hrun & Hlinks & Hframe).
    exists m'. simpl link_blocks. rewrite Hw1, Hw2, Hw3, Hw4.
    split; [| split].
    + apply bind_Some. exists (), (with_mem <[start + (i - 1) * size := start + i * size]> w).
      split; [| exact Hrun].
      unfold store. replace (start + (i - 1) * size =? 0) with false
        by (symmetry; apply Z.eqb_neq; nia). reflexivity.
    + intros j Hj. destruct (Z.eq_dec j i) as [-> | Hne].
      * rewrite Hframe by (intros j' Hj'; nia). simpl. apply lookup_insert_eq.
      * apply Hlinks. lia.
    + intros x Hx. rewrite Hframe by (intros j Hj; apply Hx; lia). simpl.
      apply lookup_insert_ne. intros Heq. apply (Hx i); [lia | symmetry; exact Heq].
Qed.

(** Linking the blocks [lo - 1 .. hi - 1] and terminating the chain. *)
Lemma link_range (start size lo hi : Z) (w : World) :
  0 < start → 0 < size → 1 ≤ lo ≤ hi → hi * size < SIZE_T_MOD →
  ∃ m', (link_blocks (Z.to_nat (hi - lo)) start size lo
           ≫= λ _, store (start + wrap (wrap (hi - 1) * size)) 0) w
        = Some ((), with_mem (λ _, m') w)
    ∧ lseg m' (start + (lo - 1) * size)
           (block_addrs start size (lo - 1) (S (Z.to_nat (hi - lo)))) 0
    ∧ (∀ x, (∀ j, lo - 1 ≤ j < hi → x ≠ start + j * size) → m' !! x = mem w !! x).
Proof.
  intros Hstart Hsize Hlo Hbound.
  destruct (link_blocks_spec (Z.to_nat (hi - lo)) start size lo w Hstart Hsize
              ltac:(lia) ltac:(nia)) as (m1 & Hrun & Hlinks & Hframe).
  assert (Hw1 : wrap (hi - 1) = hi - 1) by (apply wrap_small; nia).
  assert (Hw2 : wrap ((hi - 1) * size) = (hi - 1) * size) by (apply wrap_small; nia).
  rewrite Hw1, Hw2.
  exists (<[start + (hi - 1) * size := 0]> m1). split; [| split].
  - apply bind_Some. exists (), (with_mem (λ _, m1) w). split; [exact Hrun |].
    unfold store. replace (start + (hi - 1) * size =? 0) with false
      by (symmetry; apply Z.eqb_neq; nia). reflexivity.
  - apply lseg_block_addrs; [exact Hstart | exact Hsize | lia | |].
    + intros j Hj. rewrite lookup_insert_ne by nia.
      replace (start + j * size) with (start + (j + 1 - 1) * size) by (f_equal; nia).
      apply Hlinks. lia.
    + replace (lo - 1 + Z.of_nat (Z.to_nat (hi - lo))) with (hi - 1) by lia.
      apply lookup_insert_eq.
  - intros x Hx. rewrite lookup_insert_ne by (intros Heq; apply (Hx (hi - 1)); [lia | symmetry; exact Heq]).
    apply Hframe. intros j Hj. replace (start + (j - 1) * size) with (start + (j - 1) * size) by reflexivity.
    apply Hx. lia.
Qed.

(** Arithmetic on block numbers, with the equation that defines the quotient
    set aside. *)
Ltac arith_no_div :=
  repeat match goal with H : _ = _ / _ |- _ => clear H end;
  unfold SIZE_T_MOD, SIZE_T_BITS in *; nia.

Lemma bind_assoc_unit {S A : Type} (c d : M S ()) (f : () → M S A) (s : S) :
  (c ≫= λ _, d ≫= f) s = ((c ≫= λ _, d) ≫= f) s.
Proof. unfold mbind, M_bind. destruct (c s) as [[[] s1] |]; reflexivity. Qed.

(** The slicing of a span granted by the operating system, in full. *)
Lemma fetchRange_slice (mmap : Z → option Z) (w : World)
    (index b start : Z) :
  0 ≤ index < 4096 → 1 ≤ b →
  default 0 (centralFreeList_ w !! index) = 0 →
  (∀ K v, FreeSpans_ w !! K = Some v → K < SPAN_PAGES) →
  mmap (wrap (SPAN_PAGES * PAGE_SIZE)) = Some start → 0 < start →
  let size := (index + 1) * ALIGNMENT in
  let total := SPAN_PAGES * PAGE_SIZE / size in
  let a := Z.min b total in
  ∃ w', CentralCache.fetchRange mmap index b w = Some (start, w')
    ∧ lseg (mem w') start (block_addrs start size 0 (Z.to_nat a)) 0
    ∧ lseg (mem w') (default 0 (centralFreeList_ w' !! index))
           (block_addrs start size a (Z.to_nat (total - a))) 0
    ∧ (∃ sp, SpanMap_ w' !! start = Some sp
             ∧ spans w' !! sp = Some (mkSpan start SPAN_PAGES 0))
    ∧ _freeList w' = _freeList w ∧ _freeListSize w' = _freeListSize w.
Proof.
  intros Hi Hb Hempty Hnone Hgrant Hstart size total a.
  assert (Esize : size = (index + 1) * ALIGNMENT) by reflexivity.
  assert (Etotal : total = SPAN_PAGES * PAGE_SIZE / size) by reflexivity.
  assert (Ea : a = Z.min b total) by reflexivity.
  clearbody a. clearbody total. clearbody size.
  assert (Hidx : 0 ≤ index < FREE_LIST_SIZE).
  { unfold FREE_LIST_SIZE. change (MAX_BYTES / ALIGNMENT) with 32768. lia. }
  assert (Hsize : 8 ≤ size ≤ 32768) by (unfold ALIGNMENT in Esize; lia).
  assert (Htot1 : 1 ≤ total).
  { rewrite Etotal. unfold SPAN_PAGES, PAGE_SIZE. apply Z.div_le_lower_bound; lia. }
  assert (Htot2 : total * size ≤ 32768).
  { rewrite Etotal. unfold SPAN_PAGES, PAGE_SIZE. change (8 * 4096) with 32768.
    pose proof (Z.mul_div_le 32768 size ltac:(lia)). lia. }
  assert (Ha : 1 ≤ a ≤ total) by (clear - Ea Hb Htot1; lia).
  assert (Htot3 : total ≤ 4096) by (clear - Htot2 Hsize Htot1; nia).
  assert (Hmod : 32768 < SIZE_T_MOD) by reflexivity.
  destruct (allocateSpan_os_grant mmap w SPAN_PAGES start Hnone Hgrant ltac:(arith_no_div))
    as (sp & Hsp & Hfresh & Halloc).
  set (w1 := with_SpanMap <[start := sp]>
               (with_spans <[sp := mkSpan start SPAN_PAGES 0]>
                  (with_mem (memset0 start (wrap (SPAN_PAGES * PAGE_SIZE))) w))) in *.
  (* the blocks handed out *)
  assert (Hphase1 : ∃ m2,
    (if 1 <? a then
       link_blocks (Z.to_nat (a - 1)) start size 1
         ≫= λ _, store (start + wrap (wrap (a - 1) * size)) 0
     else mret ()) w1 = Some ((), with_mem (λ _, m2) w1)
    ∧ lseg m2 start (block_addrs start size 0 (Z.to_nat a)) 0
    ∧ ∀ x, (∀ j, 0 ≤ j < a → x ≠ start + j * size) → m2 !! x = mem w1 !! x).
  { destruct (Z.ltb_spec 1 a) as [Hgt | Hle].
    - destruct (link_range start size 1 a w1 Hstart ltac:(arith_no_div) ltac:(arith_no_div) ltac:(arith_no_div))
        as (m2 & Hrun & Hl & Hframe).
      exists m2. split; [exact Hrun |]. split.
      + replace (Z.to_nat a) with (S (Z.to_nat (a - 1))) by arith_no_div.
        replace start with (start + (1 - 1) * size) at 1 by arith_no_div. exact Hl.
      + intros x Hx. apply Hframe. intros j Hj. apply Hx. arith_no_div.
    - exists (mem w1). rewrite with_mem_const_id. split; [reflexivity |].
      split; [| auto].
      replace a with 1 by arith_no_div. simpl. split; [arith_no_div |]. split; [arith_no_div |].
      exists 0. split; [| reflexivity].
      replace (start + 0 * size) with (start + 8 * 0) by arith_no_div.
      apply memset0_lookup_in. vm_compute. split; [discriminate | reflexivity]. }
  destruct Hphase1 as (m2 & Hrun1 & Hl1 & Hframe1).
  set (w2 := with_mem (λ _, m2) w1) in *.
  (* the blocks kept *)
  assert (Hphase2 : ∃ w3,
    (if a <? total then
       link_blocks (Z.to_nat (total - (a + 1))) start size (wrap (a + 1))
         ≫= λ _, store (start + wrap (wrap (total - 1) * size)) 0
         ≫= λ _, set_central index (start + wrap (a * size))
     else mret ()) w2 = Some ((), w3)
    ∧ lseg (mem w3) (default 0 (centralFreeList_ w3 !! index))
           (block_addrs start size a (Z.to_nat (total - a))) 0
    ∧ (∀ x, (∀ j, a ≤ j < total → x ≠ start + j * size) → mem w3 !! x = m2 !! x)
    ∧ spans w3 = spans w1 ∧ SpanMap_ w3 = SpanMap_ w1
    ∧ _freeList w3 = _freeList w1 ∧ _freeListSize w3 = _freeListSize w1).
  { destruct (Z.ltb_spec a total) as [Hlt | Hge].
    - destruct (link_range start size (a + 1) total w2 Hstart ltac:(arith_no_div) ltac:(arith_no_div)
                  ltac:(arith_no_div)) as (m3 & Hrun & Hl & Hframe).
      rewrite (wrap_small (a + 1)) by arith_no_div.
      rewrite (wrap_small (a * size)) by arith_no_div.
      exists (with_central <[index := start + a * size]> (with_mem (λ _, m3) w2)).
      split; [| split; [| split]].
      + rewrite bind_assoc_unit. apply bind_Some.
        exists (), (with_mem (λ _, m3) w2). split; [exact Hrun |].
        unfold set_central. rewrite bool_decide_eq_true_2 by exact Hidx. reflexivity.
      + simpl. rewrite lookup_insert_eq. simpl.
        replace (Z.to_nat (total - a)) with (S (Z.to_nat (total - (a + 1)))) by arith_no_div.
        replace (start + a * size) with (start + (a + 1 - 1) * size) by (f_equal; arith_no_div).
        replace a with (a + 1 - 1) at 2 by arith_no_div. exact Hl.
      + intros x Hx. simpl. apply Hframe. intros j Hj. apply Hx. arith_no_div.
      + repeat split; reflexivity.
    - exists w2. split; [reflexivity |].
      replace (Z.to_nat (total - a)) with O by arith_no_div. simpl.
      split; [exact Hempty |]. split; [auto | repeat split; reflexivity]. }
  destruct Hphase2 as (w3 & Hrun2 & Hl2 & Hframe2 & Hsp3 & Hsm3 & Hfl3 & Hfs3).
  exists w3. split; [| split; [| split; [| split]]].
  - unfold CentralCache.fetchRange.
    destruct (Z.leb_spec FREE_LIST_SIZE index) as [Hge | _]; [arith_no_div |].
    destruct (Z.eqb_spec b 0) as [Hb0 | _]; [arith_no_div |].
    cbn [orb].
    apply bind_Some. exists 0, w. split.
    { unfold central_at. rewrite slot_in_range by exact Hidx. simpl.
      rewrite Hempty. reflexivity. }
    change (0 =? 0) with true. cbv iota.
    rewrite (class_size_wrap index Hidx), (fetchFromPageCache_class mmap index Hidx).
    rewrite <- Esize, <- Etotal, <- Ea.
    apply bind_Some. exists start, w1. split; [exact Halloc |].
    replace (start =? 0) with false by (symmetry; apply Z.eqb_neq; lia).
    replace (size =? 0) with false by (symmetry; apply Z.eqb_neq; lia).
    apply bind_Some. exists (), w2. split; [exact Hrun1 |].
    apply bind_Some. exists (), w3. split; [exact Hrun2 | reflexivity].
  - apply (lseg_ext m2); [| exact Hl1].
    intros x Hx. apply block_addrs_elem in Hx as (j & Hj & ->).
    apply Hframe2. intros j' Hj'. arith_no_div.
  - exact Hl2.
  - exists sp. rewrite Hsm3, Hsp3. simpl.
    split; [apply lookup_insert_eq | apply lookup_insert_eq].
  - rewrite Hfl3, Hfs3. split; reflexivity.
Qed.

(** [fetchRange] on a class below 4096 (a block of at most the 32768 bytes
    of a span) whose central list is empty, with no free span of
    [SPAN_PAGES] pages or more, when the operating system grants the span
    at [start]: the span is cut into [total = 32768 / size] blocks; the first
    [min batchNum total] are returned as a null-terminated chain beginning
    at [start], the others become the central list of the class, and the
    span is recorded with [SPAN_PAGES] pages. *)
Theorem fetchRange_slices_fresh_span (mmap : Z → option Z) (w : World)
    (index b start : Z) :
  0 ≤ index < 4096 → 1 ≤ b →
  default 0 (centralFreeList_ w !! index) = 0 →
  (∀ K v, FreeSpans_ w !! K = Some v → K < SPAN_PAGES) →
  mmap (wrap (SPAN_PAGES * PAGE_SIZE)) = Some start → 0 < start →
  let size := (index + 1) * ALIGNMENT in
  let total := SPAN_PAGES * PAGE_SIZE / size in
  let a := Z.min b total in
  ∃ w', CentralCache.fetchRange mmap index b w = Some (start, w')
    ∧ lseg (mem w') start (block_addrs start size 0 (Z.to_nat a)) 0
    ∧ lseg (mem w') (default 0 (centralFreeList_ w' !! index))
           (block_addrs start size a (Z.to_nat (total - a))) 0
    ∧ ∃ sp, SpanMap_ w' !! start = Some sp
            ∧ spans w' !! sp = Some (mkSpan start SPAN_PAGES 0).
Proof.
  intros Hi Hb Hempty Hnone Hgrant Hstart.
  destruct (fetchRange_slice mmap w index b start Hi Hb Hempty Hnone Hgrant Hstart)
    as (w' & Hrun & Hl1 & Hl2 & Hspan & _).
  exists w'. auto.
Qed.

Lemma fetchRange_slices_fresh_span_witness :
  let size := (3 + 1) * ALIGNMENT in
  let total := SPAN_PAGES * PAGE_SIZE / size in
  let a := Z.min 64 total in
  ∃ w', CentralCache.fetchRange (λ _, Some 1048576) 3 64 empty_world = Some (1048576, w')
    ∧ lseg (mem w') 1048576 (block_addrs 1048576 size 0 (Z.to_nat a)) 0
    ∧ lseg (mem w') (default 0 (centralFreeList_ w' !! 3))
           (block_addrs 1048576 size a (Z.to_nat (total - a))) 0
    ∧ ∃ sp, SpanMap_ w' !! 1048576 = Some sp
            ∧ spans w' !! sp = Some (mkSpan 1048576 SPAN_PAGES 0).
Proof.
  apply (fetchRange_slices_fresh_span (λ _, Some 1048576) empty_world 3 64 1048576).
  - lia.
  - lia.
  - reflexivity.
  - intros K v HK. discriminate HK.
  - reflexivity.
  - lia.
Defined.

(** The first fetch of a class below 4096 on a cold pool (empty central
    list, no free span of [SPAN_PAGES] pages or more): the operating system
    grants a span at [start], CentralCache cuts it into blocks, the caller gets the
    block at [start], the blocks that follow it in the batch become the
    thread's list of the class, and the blocks beyond the batch stay with
    CentralCache. *)
Theorem fetchFromCentralCache_cold (mmap : Z → option Z) (w : World) (index start : Z) :
  0 ≤ index < 4096 →
  default 0 (centralFreeList_ w !! index) = 0 →
  (∀ K v, FreeSpans_ w !! K = Some v → K < SPAN_PAGES) →
  mmap (wrap (SPAN_PAGES * PAGE_SIZE)) = Some start → 0 < start →
  let size := (index + 1) * ALIGNMENT in
  let total := SPAN_PAGES * PAGE_SIZE / size in
  ∃ b w', getBatchNum size = Some b
    ∧ ThreadCache.fetchFromCentralCache mmap index w = Some (start, w')
    ∧ lseg (mem w') (default 0 (_freeList w' !! index))
           (block_addrs start size 1 (Z.to_nat (Z.min b total) - 1)) 0
    ∧ lseg (mem w') (default 0 (centralFreeList_ w' !! index))
           (block_addrs start size (Z.min b total) (Z.to_nat (total - Z.min b total))) 0
    ∧ default 0 (_freeListSize w' !! index)
      = wrap (default 0 (_freeListSize w !! index) + b).
Proof.
  intros Hi Hempty Hnone Hgrant Hstart size total.
  assert (Hidx : 0 ≤ index < FREE_LIST_SIZE).
  { unfold FREE_LIST_SIZE. change (MAX_BYTES / ALIGNMENT) with 32768. lia. }
  destruct (getBatchNum_class index Hidx) as (b & Hb & Hb4).
  destruct (fetchRange_slice mmap w index b start Hi ltac:(lia) Hempty Hnone Hgrant Hstart)
    as (w1 & Hfetch & Hl1 & Hl2 & _ & Hfl & Hfs).
  fold size in Hl1, Hl2. fold total in Hl1, Hl2.
  assert (Htot1 : 1 ≤ total).
  { unfold total, size, SPAN_PAGES, PAGE_SIZE, ALIGNMENT.
    apply Z.div_le_lower_bound; lia. }
  destruct (Z.to_nat (Z.min b total)) as [| n] eqn:Hn; [lia |].
  simpl in Hl1. destruct Hl1 as (_ & _ & nx & Hnx & Hl1).
  replace (start + 0 * size) with start in Hnx by lia.
  replace (0 + 1) with 1 in Hl1 by lia.
  exists b. eexists. split; [exact Hb |].
  unfold ThreadCache.fetchFromCentralCache.
  rewrite (class_size_wrap index Hidx), Hb.
  monad_unfold. rewrite Hfetch.
  replace (start =? 0) with false by (symmetry; apply Z.eqb_neq; lia).
  unfold freeListSize_at, set_freeListSize, load, set_freeList. monad_unfold.
  rewrite slot_in_range by exact Hidx. simpl.
  rewrite !bool_decide_eq_true_2 by exact Hidx. simpl.
  replace (1 <? b) with true by (symmetry; apply Z.ltb_lt; lia).
  change (mem (with_freeListSize _ w1)) with (mem w1). rewrite Hnx.
  replace (start =? 0) with false by (symmetry; apply Z.eqb_neq; lia).
  split; [reflexivity |]. simpl. rewrite !lookup_insert_eq. simpl.
  rewrite Hn, Hfs. replace (S n - 1)%nat with n by lia.
  split; [exact Hl1 |]. split; [exact Hl2 | reflexivity].
Qed.

Lemma fetchFromCentralCache_cold_witness :
  let size := (3 + 1) * ALIGNMENT in
  let total := SPAN_PAGES * PAGE_SIZE / size in
  ∃ b w', getBatchNum size = Some b
    ∧ ThreadCache.fetchFromCentralCache (λ _, Some 1048576) 3 empty_world
      = Some (1048576, w')
    ∧ lseg (mem w') (default 0 (_freeList w' !! 3))
           (block_addrs 1048576 size 1 (Z.to_nat (Z.min b total) - 1)) 0
    ∧ lseg (mem w') (default 0 (centralFreeList_ w' !! 3))
           (block_addrs 1048576 size (Z.min b total)
              (Z.to_nat (total - Z.min b total))) 0
    ∧ default 0 (_freeListSize w' !! 3)
      = wrap (default 0 (_freeListSize empty_world !! 3) + b).
Proof.
  apply (fetchFromCentralCache_cold (λ _, Some 1048576) empty_world 3 1048576).
  - lia.
  - reflexivity.
  - intros K v HK. discriminate HK.
  - reflexivity.
  - lia.
Defined.
